(** * Pinia store lifecycle manager: a shallow embedding of [src/plugin.ts]

    The plugin exposes three operations on a Pinia store ([reset],
    [reconfigure], [refresh]) and an attachment gate that hands them to a
    caller-supplied handler.  The store and the reactivity system (Pinia and
    Vue) are external collaborators: they appear here as the interface
    [Substrate]; everything else is translated from the TypeScript source. *)

From Stdlib Require Import String List Bool ZArith Lia.
From stdpp Require Import base option gmap strings.
Import ListNotations.
Local Open Scope string_scope.

(** ** JavaScript values held by a store *)

Inductive Value : Type :=
| VUndefined
| VNull
| VBool (b : bool)
| VNum (n : Z)
| VStr (s : string)
| VObject (readonlyProxy : bool) (ref : nat)
| VFunction (name : string).

(** JavaScript truthiness, as used by [if (action)]. *)
Definition truthy (v : Value) : bool :=
  match v with
  | VUndefined | VNull => false
  | VBool b => b
  | VNum n => negb (Z.eqb n 0)
  | VStr s => negb (String.eqb s "")
  | VObject _ _ | VFunction _ => true
  end.

(** A thrown JavaScript value. *)
Definition Error : Type := string.

Inductive Outcome (A : Type) : Type :=
| Ret (a : A)
| Throw (e : Error).
Arguments Ret {A} a.
Arguments Throw {A} e.

(** A plain object: its own enumerable string-keyed properties, in the order
    [Object.keys] and [Object.entries] list them. *)
Definition JSObject (V : Type) : Type := list (string * V).

Definition Object_keys {V} (o : JSObject V) : list string := map fst o.

Definition Object_entries {V} (o : JSObject V) : list (string * V) := o.

Fixpoint obj_get {V} (o : JSObject V) (key : string) : option V :=
  match o with
  | [] => None
  | (k, v) :: rest => if String.eqb k key then Some v else obj_get rest key
  end.

Fixpoint obj_set {V} (o : JSObject V) (key : string) (v : V) : JSObject V :=
  match o with
  | [] => [(key, v)]
  | (k, w) :: rest =>
      if String.eqb k key then (k, v) :: rest else (k, w) :: obj_set rest key v
  end.

Definition Object_fromEntries {V} (es : list (string * V)) : JSObject V :=
  fold_left (fun o kv => obj_set o (fst kv) (snd kv)) es [].

(** An object never has the same key twice. *)
Definition wf_object {V} (o : JSObject V) : Prop :=
  List.NoDup (Object_keys o).

(** ** types.ts *)

Record ActionParams : Type := {
  params : list Value;
  resetOnly : option bool
}.

(** [Partial<ActionParamsMap<...>>]: a value may be [undefined]. *)
Definition RefreshOptions : Type := JSObject (option ActionParams).
Definition CleanOptions : Type := JSObject Value.
Definition ReconfigureOptions : Type := JSObject Value.

Inductive RefreshMode : Type := full | partial.

Record PiniaStoreLifecycleManagerRefreshOptions : Type := {
  mode : RefreshMode;
  includeResetOnlyActions : option bool
}.

(** A configuration slot is either a plain object or a function.  A function
    is given by its declared parameter count ([Function.length]) and its body;
    the body receives [Some store] when it is called with the store and [None]
    when it is called without arguments, and returns a mapping, nothing
    ([void]) or throws.  Resolver functions only read the store. *)
Inductive ConfigSource (Store T : Type) : Type :=
| Static (mapping : T)
| Func (length : nat) (body : option Store -> Outcome (option T)).
Arguments Static {Store T} mapping.
Arguments Func {Store T} length body.

Record LifecycleOptions (Store : Type) : Type := {
  clean : option (ConfigSource Store CleanOptions);
  reConfigure : option (ConfigSource Store ReconfigureOptions);
  refresh : option (ConfigSource Store RefreshOptions);
  disableListener : option bool
}.
Arguments clean {Store} _.
Arguments reConfigure {Store} _.
Arguments refresh {Store} _.
Arguments disableListener {Store} _.

Record DefineStoreOptions (Store : Type) : Type := {
  lifecycleOptions : option (LifecycleOptions Store)
}.
Arguments lifecycleOptions {Store} _.

Record PluginOptions : Type := {
  disableAutoRegister : option bool;
  enableDebugLogs : option bool;
  enableSSR : option bool
}.

(** Truthiness of an optional boolean ([undefined] is falsy). *)
Definition flag (b : option bool) : bool := default false b.

(** [pluginOptions?.field] *)
Definition plugin_flag (f : PluginOptions -> option bool)
    (pluginOptions : option PluginOptions) : bool :=
  flag (pluginOptions ≫= f).

(** ** Observable events *)

Inductive Level : Type := LLog | LWarn | LError.

Inductive LogData : Type :=
| NoData
| DConfig
| DUpdate (oldValue newValue : Value)
| DRefresh (m : RefreshMode) (includeResetOnly declared : bool)
| DFilter (shouldInclude : bool) (m : RefreshMode)
          (includeResetOnly actionResetOnly : bool)
| DParams (ps : list Value)
| DReason (reason : string)
| DError (e : Error).

(** What an observer of a run sees, in order: a console line
    ([console.log], [console.warn], [console.error]), an assignment
    [store[key] = v] being attempted (whether or not the setter then
    throws), a call [action(...ps)] of the store property [key], and a call
    of the caller's [lifecycleEventHandler]. *)
Inductive Event : Type :=
| Console (lvl : Level) (line : string) (data : LogData)
| Write (key : string) (v : Value)
| Invoke (key : string) (ps : list Value)
| HandlerCall.

(** ** The store substrate (Pinia store and Vue reactivity)

    The operations of the store that [plugin.ts] uses.  Reading a property
    returns a value; assigning one and calling an action may throw and may
    change the store. *)

Class Substrate (Store : Type) : Type := {
  (** [store.$id] *)
  store_id : Store -> string;
  (** [store[key]] *)
  prop_get : Store -> string -> Value;
  (** [store[key] = v]; a setter may throw *)
  prop_set : string -> Value -> Store -> Outcome unit * Store;
  (** Vue's [isReadonly] *)
  isReadonly : Value -> bool;
  (** [store.$state.hasOwnProperty(key)] *)
  state_hasOwnProperty : Store -> string -> bool;
  (** [store.$state[key]] *)
  state_get : Store -> string -> Value;
  (** [store.$state[key] = ref(v)] *)
  state_set_ref : string -> Value -> Store -> Store;
  (** [store[key] = toRef(store.$state, key)] *)
  prop_set_toRef : string -> Store -> Store;
  (** [f(...args)] for a value [f] read from the store *)
  call : Value -> list Value -> Store -> Outcome unit * Store
}.

(** ** The effect monad: store state, event trace, exceptions *)

Section Plugin.

Context {Store : Type} `{!Substrate Store}.

Record World : Type := {
  w_store : Store;
  w_trace : list Event
}.

Definition M (A : Type) : Type := World -> Outcome A * World.

Definition ret {A} (a : A) : M A := fun w => (Ret a, w).

Definition bind {A B} (m : M A) (k : A -> M B) : M B :=
  fun w =>
    match m w with
    | (Ret a, w') => k a w'
    | (Throw e, w') => (Throw e, w')
    end.

Notation "x <- c1 ;; c2" := (bind c1 (fun x => c2))
  (at level 100, c1 at next level, right associativity).
Notation "c1 ;; c2" := (bind c1 (fun _ => c2))
  (at level 100, right associativity).

(** [try { body } catch (error) { handler }] *)
Definition try_catch {A} (body : M A) (handler : Error -> M A) : M A :=
  fun w =>
    match body w with
    | (Ret a, w') => (Ret a, w')
    | (Throw e, w') => handler e w'
    end.

Definition emit (ev : Event) : M unit :=
  fun w => (Ret tt, {| w_store := w_store w; w_trace := w_trace w ++ [ev] |}).

Definition read_id : M string := fun w => (Ret (store_id (w_store w)), w).

Definition read_prop (key : string) : M Value :=
  fun w => (Ret (prop_get (w_store w) key), w).

Definition write_prop (key : string) (v : Value) : M unit :=
  fun w =>
    let '(o, s) := prop_set key v (w_store w) in
    (o, {| w_store := s; w_trace := w_trace w ++ [Write key v] |}).

Definition invoke (key : string) (f : Value) (args : list Value) : M unit :=
  fun w =>
    let '(o, s) := call f args (w_store w) in
    (o, {| w_store := s; w_trace := w_trace w ++ [Invoke key args] |}).

Definition update_store (f : Store -> Store) : M unit :=
  fun w => (Ret tt, {| w_store := f (w_store w); w_trace := w_trace w |}).

(** [Array.prototype.forEach] *)
Fixpoint forEach {A} (f : A -> M unit) (l : list A) : M unit :=
  match l with
  | [] => ret tt
  | x :: rest => f x ;; forEach f rest
  end.

(** [Array.prototype.filter] with a callback that logs *)
Fixpoint filterM {A} (f : A -> M bool) (l : list A) : M (list A) :=
  match l with
  | [] => ret []
  | x :: rest =>
      keep <- f x ;;
      kept <- filterM f rest ;;
      ret (if keep then x :: kept else kept)
  end.

(** ** utils.ts *)

Definition debugLog (storeId message : string) (data : LogData) : M unit :=
  emit (Console LLog ("🔄 [" ++ storeId ++ "] " ++ message) data).

Definition devWarnNonWritable (storeId propertyName : string) : M unit :=
  emit (Console LWarn
          ("🔄 🚫 [" ++ storeId ++ "] Skipped non-writable property '"
           ++ propertyName
           ++ "'. Avoid including non-writable computed properties in clean or reConfigure options.")
          NoData).

Definition devError (storeId message : string) (error : Error) : M unit :=
  emit (Console LError
          ("🔄 [PiniaStoreLifecycleManager] (" ++ storeId ++ ") " ++ message)
          (DError error)).

(** ** plugin.ts *)

(** [if (pluginOptions?.enableDebugLogs) { ... }] *)
Definition ifDebug (pluginOptions : option PluginOptions) (m : M unit) : M unit :=
  if plugin_flag enableDebugLogs pluginOptions then m else ret tt.

(** The resolution of a configuration slot, written three times in the
    source as
    [typeof c === "function" ? (c.length > 0 ? c(store) : c()) : c]. *)
Definition resolved {T} (c : ConfigSource Store T) (store : Store)
    : Outcome (option T) :=
  match c with
  | Func length body =>
      if (0 <? length)%nat then body (Some store) else body None
  | Static mapping => Ret (Some mapping)
  end.

Definition resolveConfig {T} (c : ConfigSource Store T) : M (option T) :=
  fun w => (resolved c (w_store w), w).

(** [data ? data : ""] for a configuration slot passed as log data *)
Definition slotData {T} (slot : option (ConfigSource Store T)) : LogData :=
  match slot with
  | Some _ => DConfig
  | None => NoData
  end.

Definition resetState (options : DefineStoreOptions Store)
    (pluginOptions : option PluginOptions) : M unit :=
  ifDebug pluginOptions
    (sid <- read_id ;;
     debugLog sid "Initiating reset state operation"
       (slotData (lifecycleOptions options ≫= clean))) ;;
  match lifecycleOptions options ≫= clean with
  | None =>
      ifDebug pluginOptions
        (sid <- read_id ;;
         debugLog sid "Reset state operation skipped: No clean options defined"
           NoData)
  | Some cleanSource =>
      cleanOptions <- resolveConfig cleanSource ;;
      match cleanOptions with
      | Some cleanOptions =>
          forEach (fun key =>
            current <- read_prop key ;;
            if isReadonly current then
              ifDebug pluginOptions
                (sid <- read_id ;; devWarnNonWritable sid key)
            else
              oldValue <- read_prop key ;;
              try_catch
                (write_prop key (default VUndefined (obj_get cleanOptions key)) ;;
                 ifDebug pluginOptions
                   (sid <- read_id ;;
                    newValue <- read_prop key ;;
                    debugLog sid ("Reset state: Updated '" ++ key ++ "'")
                      (DUpdate oldValue newValue)))
                (fun error =>
                   sid <- read_id ;;
                   devError sid
                     ("Failed to reset state for key '" ++ key ++ "'") error))
            (Object_keys cleanOptions)
      | None => ret tt
      end ;;
      ifDebug pluginOptions
        (sid <- read_id ;;
         debugLog sid "Reset state operation completed" NoData)
  end.

Definition reconfigureState (options : DefineStoreOptions Store)
    (pluginOptions : option PluginOptions) : M unit :=
  ifDebug pluginOptions
    (sid <- read_id ;;
     debugLog sid "Initiating reconfigure state operation"
       (slotData (lifecycleOptions options ≫= reConfigure))) ;;
  match lifecycleOptions options ≫= reConfigure with
  | None =>
      ifDebug pluginOptions
        (sid <- read_id ;;
         debugLog sid
           "Reconfigure state operation skipped: No reconfigure options defined"
           NoData)
  | Some reconfigureSource =>
      reconfigureOptions <- resolveConfig reconfigureSource ;;
      match reconfigureOptions with
      | Some reconfigureOptions =>
          forEach (fun key =>
            current <- read_prop key ;;
            if isReadonly current then
              ifDebug pluginOptions
                (sid <- read_id ;; devWarnNonWritable sid key)
            else
              oldValue <- read_prop key ;;
              try_catch
                (write_prop key
                   (default VUndefined (obj_get reconfigureOptions key)) ;;
                 ifDebug pluginOptions
                   (sid <- read_id ;;
                    newValue <- read_prop key ;;
                    debugLog sid ("Reconfigure state: Updated '" ++ key ++ "'")
                      (DUpdate oldValue newValue)))
                (fun error =>
                   sid <- read_id ;;
                   devError sid
                     ("Failed to reconfigure state for key '" ++ key ++ "'")
                     error))
            (Object_keys reconfigureOptions)
      | None => ret tt
      end ;;
      ifDebug pluginOptions
        (sid <- read_id ;;
         debugLog sid "Reconfigure state operation completed" NoData)
  end.

(** The property applicator.  [resetState] and [reconfigureState] are the
    same text up to the configuration slot and the wording of the log lines;
    [applicator] is that text with the slot and the wording as arguments, so
    that both operations are reasoned about once. *)
Definition applyKey (pluginOptions : option PluginOptions)
    (updated failed : string -> string) (mapping : JSObject Value)
    (key : string) : M unit :=
  current <- read_prop key ;;
  if isReadonly current then
    ifDebug pluginOptions (sid <- read_id ;; devWarnNonWritable sid key)
  else
    oldValue <- read_prop key ;;
    try_catch
      (write_prop key (default VUndefined (obj_get mapping key)) ;;
       ifDebug pluginOptions
         (sid <- read_id ;;
          newValue <- read_prop key ;;
          debugLog sid (updated key) (DUpdate oldValue newValue)))
      (fun error => sid <- read_id ;; devError sid (failed key) error).

Definition applicator (pluginOptions : option PluginOptions)
    (initiating skipped completed : string) (updated failed : string -> string)
    (slot : option (ConfigSource Store (JSObject Value))) : M unit :=
  ifDebug pluginOptions
    (sid <- read_id ;; debugLog sid initiating (slotData slot)) ;;
  match slot with
  | None => ifDebug pluginOptions (sid <- read_id ;; debugLog sid skipped NoData)
  | Some source =>
      mapping <- resolveConfig source ;;
      match mapping with
      | Some mapping =>
          forEach (applyKey pluginOptions updated failed mapping)
            (Object_keys mapping)
      | None => ret tt
      end ;;
      ifDebug pluginOptions (sid <- read_id ;; debugLog sid completed NoData)
  end.

(** The filter predicate of [refreshState]:
    [mode === "full" ? !include || (include && actionResetOnly) : !actionResetOnly] *)
Definition shouldInclude (m : RefreshMode) (includeResetOnly : bool)
    (value : option ActionParams) : bool :=
  let actionResetOnly := default false (value ≫= resetOnly) in
  match m with
  | full => negb includeResetOnly || (includeResetOnly && actionResetOnly)
  | partial => negb actionResetOnly
  end.

(** [const filteredResult = Object.fromEntries(Object.entries(refreshResult).filter(...))] *)
Definition filteredResult (pluginOptions : option PluginOptions)
    (mode_ : RefreshMode) (includeResetOnly : bool)
    (refreshResult : RefreshOptions) : M RefreshOptions :=
  kept <- filterM (fun '(key, value) =>
            let actionResetOnly := default false (value ≫= resetOnly) in
            let include := shouldInclude mode_ includeResetOnly value in
            ifDebug pluginOptions
              (sid <- read_id ;;
               debugLog sid ("Filtering refresh action: " ++ key)
                 (DFilter include mode_ includeResetOnly actionResetOnly)) ;;
            ret include)
          (Object_entries refreshResult) ;;
  ret (Object_fromEntries kept).

(** [Object.entries(filteredResult).forEach(([key, value]) => { ... })] *)
Definition dispatchActions (pluginOptions : option PluginOptions)
    (entries : list (string * option ActionParams)) : M unit :=
  forEach (fun '(key, value) =>
    action <- read_prop key ;;
    if truthy action then
      let ps := default [] (params <$> value) in
      ifDebug pluginOptions
        (sid <- read_id ;;
         debugLog sid ("Executing refresh action: " ++ key) (DParams ps)) ;;
      invoke key action ps
    else
      ifDebug pluginOptions
        (sid <- read_id ;;
         debugLog sid ("Skipped non-existent refresh action: " ++ key) NoData))
    entries.

Definition refreshState (options : DefineStoreOptions Store)
    (pluginOptions : option PluginOptions)
    (refreshOptions : PiniaStoreLifecycleManagerRefreshOptions) : M unit :=
  let mode_ := mode refreshOptions in
  let includeResetOnly := default false (includeResetOnlyActions refreshOptions) in
  ifDebug pluginOptions
    (sid <- read_id ;;
     debugLog sid "Initiating refresh action"
       (DRefresh mode_ includeResetOnly
          (bool_decide (is_Some (lifecycleOptions options ≫= refresh))))) ;;
  match lifecycleOptions options ≫= refresh with
  | None =>
      ifDebug pluginOptions
        (sid <- read_id ;;
         debugLog sid "Refresh action skipped: No refresh options defined" NoData)
  | Some refreshSource =>
      refreshResult <- resolveConfig refreshSource ;;
      match refreshResult with
      | Some refreshResult =>
          filtered <- filteredResult pluginOptions mode_ includeResetOnly
                        refreshResult ;;
          dispatchActions pluginOptions (Object_entries filtered)
      | None =>
          ifDebug pluginOptions
            (sid <- read_id ;;
             debugLog sid "Refresh action skipped: Invalid refresh result"
               NoData)
      end ;;
      ifDebug pluginOptions
        (sid <- read_id ;; debugLog sid "Refresh action completed" NoData)
  end.

(** The three operations handed to the caller's handler. *)
Record LifecycleEvents : Type := {
  reset : M unit;
  reconfigure : M unit;
  refresh' : PiniaStoreLifecycleManagerRefreshOptions -> M unit
}.

(** [typeof window] and [typeof document] of the hosting runtime *)
Record Environment : Type := {
  window_defined : bool;
  document_defined : bool
}.

Definition read_state_hasOwnProperty (key : string) : M bool :=
  fun w => (Ret (state_hasOwnProperty (w_store w) key), w).

Definition read_state (key : string) : M Value :=
  fun w => (Ret (state_get (w_store w) key), w).

Definition PiniaStoreLifecycleManager (env : Environment)
    (options : DefineStoreOptions Store)
    (lifecycleEventHandler : LifecycleEvents -> M unit)
    (pluginOptions : option PluginOptions) : M unit :=
  if (negb (window_defined env) || negb (document_defined env))
     && negb (plugin_flag enableSSR pluginOptions)
  then
    ifDebug pluginOptions
      (sid <- read_id ;;
       debugLog sid
         "PiniaStoreLifecycleManager is not running on the client side."
         NoData)
  else
    hasFlag <- read_state_hasOwnProperty "hasStoreLifecycleManagerListener" ;;
    let disableAuto := plugin_flag disableAutoRegister pluginOptions in
    let disableListener_ := lifecycleOptions options ≫= disableListener in
    if negb hasFlag
       && ((negb disableAuto && negb (bool_decide (disableListener_ = Some true)))
           || (disableAuto && bool_decide (disableListener_ = Some false)))
    then
      update_store
        (state_set_ref "_hasStoreLifecycleManagerListener" (VBool true)) ;;
      ifDebug pluginOptions
        (sid <- read_id ;;
         debugLog sid "Attaching PiniaStoreLifecycleManager listener" NoData) ;;
      emit HandlerCall ;;
      lifecycleEventHandler
        {| reset := resetState options pluginOptions;
           reconfigure := reconfigureState options pluginOptions;
           refresh' := refreshState options pluginOptions |} ;;
      update_store (prop_set_toRef "_hasStoreLifecycleManagerListener") ;;
      ifDebug pluginOptions
        (sid <- read_id ;;
         debugLog sid
           "PiniaStoreLifecycleManager listener attached successfully" NoData)
    else
      ifDebug pluginOptions
        (sid <- read_id ;;
         attached <- read_state "hasStoreLifecycleManagerListener" ;;
         debugLog sid "Skipping PiniaStoreLifecycleManager listener attachment"
           (DReason (if truthy attached then "Already attached"
                     else "Disabled by configuration"))).

End Plugin.

Arguments World Store : clear implicits.
Arguments M Store A : clear implicits.
Arguments LifecycleEvents Store : clear implicits.

(** ** A concrete substrate

    A store kept in finite maps: [$state], the properties read as
    [store[key]], and the bodies of its actions.  The keys whose setter
    throws are fixed for the substrate. *)

Inductive ActionBody : Type :=
| ASetProp (key : string)
| AThrows (e : Error).

Record MapStore : Type := {
  ms_id : string;
  ms_state : gmap string Value;
  ms_props : gmap string Value;
  ms_actions : gmap string ActionBody
}.

Definition ms_prop_set (throwing : list string) (key : string) (v : Value)
    (s : MapStore) : Outcome unit * MapStore :=
  if bool_decide (key ∈ throwing) then
    (Throw ("Cannot assign to property " ++ key), s)
  else
    (Ret tt, {| ms_id := ms_id s; ms_state := ms_state s;
                ms_props := <[key := v]> (ms_props s);
                ms_actions := ms_actions s |}).

Definition ms_call (f : Value) (args : list Value) (s : MapStore)
    : Outcome unit * MapStore :=
  match f with
  | VFunction name =>
      match ms_actions s !! name with
      | Some (ASetProp key) =>
          (Ret tt, {| ms_id := ms_id s; ms_state := ms_state s;
                      ms_props := <[key := hd VUndefined args]> (ms_props s);
                      ms_actions := ms_actions s |})
      | Some (AThrows e) => (Throw e, s)
      | None => (Ret tt, s)
      end
  | _ => (Throw "TypeError: action is not a function", s)
  end.

Definition MapSubstrate (throwing : list string) : Substrate MapStore := {|
  store_id := ms_id;
  prop_get := fun s key => default VUndefined (ms_props s !! key);
  prop_set := ms_prop_set throwing;
  isReadonly := fun v => match v with VObject true _ => true | _ => false end;
  state_hasOwnProperty := fun s key => bool_decide (is_Some (ms_state s !! key));
  state_get := fun s key => default VUndefined (ms_state s !! key);
  state_set_ref := fun key v s =>
    {| ms_id := ms_id s; ms_state := <[key := v]> (ms_state s);
       ms_props := ms_props s; ms_actions := ms_actions s |};
  prop_set_toRef := fun key s =>
    {| ms_id := ms_id s; ms_state := ms_state s;
       ms_props := <[key := default VUndefined (ms_state s !! key)]> (ms_props s);
       ms_actions := ms_actions s |};
  call := ms_call
|}.

Definition demoStore : MapStore := {|
  ms_id := "demo";
  ms_state := ∅;
  ms_props := {[ "count" := VNum 7; "user" := VObject false 1;
                 "frozen" := VObject true 2;
                 "load" := VFunction "load"; "purge" := VFunction "purge" ]};
  ms_actions := {[ "load" := ASetProp "loaded"; "purge" := ASetProp "purged" ]}
|}.

Definition quietHandler : LifecycleEvents MapStore -> M MapStore unit :=
  fun _ w => (Ret tt, w).

Definition browser : Environment :=
  {| window_defined := true; document_defined := true |}.

Definition noOptions : DefineStoreOptions MapStore :=
  {| lifecycleOptions := None |}.

Definition world0 : World MapStore :=
  {| w_store := demoStore; w_trace := [] |}.

Definition demoClean : CleanOptions :=
  [("count", VNum 0); ("user", VNull); ("frozen", VNull)].

Definition loadEntry : option ActionParams :=
  Some {| params := []; resetOnly := Some false |}.
Definition missingEntry : option ActionParams :=
  Some {| params := []; resetOnly := None |}.
Definition purgeEntry : option ActionParams :=
  Some {| params := [VStr "x"]; resetOnly := Some true |}.

Definition demoRefresh : RefreshOptions :=
  [("load", loadEntry); ("missing", missingEntry); ("purge", purgeEntry)].

(** Every slot declared as a plain object. *)
Definition demoOptions : DefineStoreOptions MapStore :=
  {| lifecycleOptions :=
       Some {| clean := Some (Static demoClean);
               reConfigure := Some (Static demoClean);
               refresh := Some (Static demoRefresh);
               disableListener := None |} |}.

(** Every slot declared as a function: [clean] without parameters, the
    other two taking the store. *)
Definition functionOptions : DefineStoreOptions MapStore :=
  {| lifecycleOptions :=
       Some {| clean := Some (Func 0 (fun _ => Ret (Some demoClean)));
               reConfigure := Some (Func 1 (fun _ => Ret (Some demoClean)));
               refresh := Some (Func 1 (fun _ => Ret (Some demoRefresh)));
               disableListener := None |} |}.

(** Every slot declared as a function that throws. *)
Definition throwingOptions : DefineStoreOptions MapStore :=
  {| lifecycleOptions :=
       Some {| clean := Some (Func 1 (fun _ => Throw "boom"));
               reConfigure := Some (Func 0 (fun _ => Throw "boom"));
               refresh := Some (Func 1 (fun _ => Throw "boom"));
               disableListener := None |} |}.

Definition overrideOptions : DefineStoreOptions MapStore :=
  {| lifecycleOptions :=
       Some {| clean := None; reConfigure := None; refresh := None;
               disableListener := Some false |} |}.

Definition manualPlugin : option PluginOptions :=
  Some {| disableAutoRegister := Some true; enableDebugLogs := Some true;
          enableSSR := None |}.

Definition partialRefresh : PiniaStoreLifecycleManagerRefreshOptions :=
  {| mode := partial; includeResetOnlyActions := None |}.

Definition fullRefresh : PiniaStoreLifecycleManagerRefreshOptions :=
  {| mode := full; includeResetOnlyActions := None |}.

(** ** Notions used to state the properties *)

Definition is_console (ev : Event) : bool :=
  match ev with
  | Console _ _ _ => true
  | _ => false
  end.

(** The trace without its diagnostics: the writes attempted, the actions
    invoked and the handler calls. *)
Definition effects (t : list Event) : list Event :=
  List.filter (fun ev => negb (is_console ev)) t.

(** A per-key failure report of [devError]. *)
Definition is_error_report (ev : Event) : bool :=
  match ev with
  | Console LError _ (DError _) => true
  | _ => false
  end.

(** Either an effect or a failure report: not a debug line, not a warning. *)
Definition not_gated_line (ev : Event) : bool :=
  negb (is_console ev) || is_error_report ev.

Definition handler_calls (t : list Event) : nat :=
  length (List.filter (fun ev => match ev with HandlerCall => true | _ => false end) t).

(** [actionResetOnly] of an entry: [value?.resetOnly ?? false]. *)
Definition actionResetOnly (value : option ActionParams) : bool :=
  default false (value ≫= resetOnly).

(** The refresh truth table, in the words of the specification. *)
Definition refresh_truth_table (m : RefreshMode) (include : option bool)
    (entryResetOnly : bool) : Prop :=
  match m, include with
  | partial, _ => entryResetOnly = false
  | full, (None | Some false) => True
  | full, Some true => entryResetOnly = true
  end.

(** The registration policy, in the words of the specification: a per-store
    override decides when present, otherwise the global switch does. *)
Definition registration_policy (disableAuto disableListener_ : option bool) : bool :=
  match disableListener_ with
  | Some false => true
  | Some true => false
  | None => negb (flag disableAuto)
  end.

(** The environment check of the attachment gate passes. *)
Definition environment_passes (env : Environment)
    (pluginOptions : option PluginOptions) : bool :=
  (window_defined env && document_defined env)
  || plugin_flag enableSSR pluginOptions.

Section Laws.

Context {Store : Type} `{!Substrate Store}.

(** Writing one key leaves every other key as it was. *)
Definition set_frame : Prop :=
  forall key v (s : Store) key',
    key' <> key -> prop_get (snd (prop_set key v s)) key' = prop_get s key'.

(** A write that returns normally is read back. *)
Definition set_get : Prop :=
  forall key v (s : Store),
    fst (prop_set key v s) = Ret tt -> prop_get (snd (prop_set key v s)) key = v.

(** The store and the writes produced by the key loop of the applicator. *)
Definition newValue (mapping : JSObject Value) (key : string) : Value :=
  default VUndefined (obj_get mapping key).

Fixpoint keys_store (mapping : JSObject Value) (keys : list string)
    (s : Store) : Store :=
  match keys with
  | [] => s
  | key :: rest =>
      keys_store mapping rest
        (if isReadonly (prop_get s key) then s
         else snd (prop_set key (newValue mapping key) s))
  end.

Fixpoint keys_writes (mapping : JSObject Value) (keys : list string)
    (s : Store) : list Event :=
  match keys with
  | [] => []
  | key :: rest =>
      if isReadonly (prop_get s key) then keys_writes mapping rest s
      else Write key (newValue mapping key)
             :: keys_writes mapping rest
                  (snd (prop_set key (newValue mapping key) s))
  end.

(** The keys of the mapping a slot resolves to; none when the slot is
    undeclared, when the resolver returns nothing and when it throws. *)
Definition resolved_keys (slot : option (ConfigSource Store (JSObject Value)))
    (s : Store) : list string :=
  match slot with
  | Some source =>
      match resolved source s with
      | Ret (Some mapping) => Object_keys mapping
      | _ => []
      end
  | None => []
  end.

(** Outcome, store and effects of the applicator on a slot. *)
Definition applicator_summary
    (slot : option (ConfigSource Store (JSObject Value))) (s : Store)
    : Outcome unit * Store * list Event :=
  match slot with
  | None => (Ret tt, s, [])
  | Some source =>
      match resolved source s with
      | Throw e => (Throw e, s, [])
      | Ret None => (Ret tt, s, [])
      | Ret (Some mapping) =>
          (Ret tt, keys_store mapping (Object_keys mapping) s,
           keys_writes mapping (Object_keys mapping) s)
      end
  end.

(** Outcome, store and effects of the dispatch loop of [refreshState]. *)
Fixpoint dispatch_summary (entries : list (string * option ActionParams))
    (s : Store) : Outcome unit * Store * list Event :=
  match entries with
  | [] => (Ret tt, s, [])
  | (key, value) :: rest =>
      if truthy (prop_get s key) then
        let ps := default [] (params <$> value) in
        match call (prop_get s key) ps s with
        | (Ret _, s') =>
            let '(o, s'', evs) := dispatch_summary rest s' in
            (o, s'', Invoke key ps :: evs)
        | (Throw e, s') => (Throw e, s', [Invoke key ps])
        end
      else dispatch_summary rest s
  end.

Definition kept_entries (m : RefreshMode) (includeResetOnly : bool)
    (refreshResult : RefreshOptions) : RefreshOptions :=
  Object_fromEntries
    (List.filter (fun kv => shouldInclude m includeResetOnly (snd kv))
       (Object_entries refreshResult)).

Definition refresh_summary
    (slot : option (ConfigSource Store RefreshOptions))
    (refreshOptions : PiniaStoreLifecycleManagerRefreshOptions) (s : Store)
    : Outcome unit * Store * list Event :=
  match slot with
  | None => (Ret tt, s, [])
  | Some source =>
      match resolved source s with
      | Throw e => (Throw e, s, [])
      | Ret None => (Ret tt, s, [])
      | Ret (Some refreshResult) =>
          dispatch_summary
            (Object_entries
               (kept_entries (mode refreshOptions)
                  (default false (includeResetOnlyActions refreshOptions))
                  refreshResult)) s
      end
  end.

End Laws.

Section RunDefinitions.

Context {Store : Type} `{!Substrate Store}.

(** Unless debug logs are enabled, the events are effects and failure
    reports only. *)
Definition quiet_when_off (pluginOptions : option PluginOptions)
    (logs : list Event) : Prop :=
  plugin_flag enableDebugLogs pluginOptions = false ->
  forallb not_gated_line logs = true.

(** [run_as p m w (o, s, evs)]: from [w], the computation [m] ends with
    outcome [o] in store [s], having appended to the trace events whose
    effects are [evs]. *)
Definition run_as {A} (pluginOptions : option PluginOptions) (m : M Store A)
    (w : World Store) (r : Outcome A * Store * list Event) : Prop :=
  exists logs,
    m w = (fst (fst r),
           {| w_store := snd (fst r); w_trace := w_trace w ++ logs |})
    /\ effects logs = snd r
    /\ quiet_when_off pluginOptions logs.

(** Diagnostics are advisory for an operation [op] when two runs under
    plugin options [p1] and [p2] end in the same outcome and the same store
    after the same effects, and when a run without debug logs emits neither
    a debug line nor a warning. *)
Definition advisory (op : option PluginOptions -> M Store unit)
    (p1 p2 : option PluginOptions) (w : World Store) : Prop :=
  fst (op p1 w) = fst (op p2 w)
  /\ w_store (snd (op p1 w)) = w_store (snd (op p2 w))
  /\ effects (w_trace (snd (op p1 w))) = effects (w_trace (snd (op p2 w)))
  /\ (plugin_flag enableDebugLogs p1 = false ->
      exists logs, w_trace (snd (op p1 w)) = (w_trace w ++ logs)%list
                   /\ forallb not_gated_line logs = true).

End RunDefinitions.

(** ** Further notions: what a configuration declares *)

(** The console line of [devError]. *)
Definition devErrorLine (storeId message : string) : string :=
  "🔄 [PiniaStoreLifecycleManager] (" ++ storeId ++ ") " ++ message.

(** The console line of [devWarnNonWritable]. *)
Definition devWarnLine (storeId propertyName : string) : string :=
  "🔄 🚫 [" ++ storeId ++ "] Skipped non-writable property '"
  ++ propertyName
  ++ "'. Avoid including non-writable computed properties in clean or reConfigure options.".

(** The invocation an entry of an action mapping declares:
    [action(...(value?.params ?? []))]. *)
Definition declared_invocation (entry : string * option ActionParams) : Event :=
  Invoke (fst entry) (default [] (params <$> snd entry)).

Section Declared.

Context {Store : Type} `{!Substrate Store}.

(** A slot that is undeclared, or that resolves to nothing or to the empty
    object. *)
Definition resolves_to_nothing {T}
    (slot : option (ConfigSource Store (JSObject T))) (s : Store) : Prop :=
  match slot with
  | None => True
  | Some source =>
      resolved source s = Ret None \/ resolved source s = Ret (Some [])
  end.

(** The writes a property mapping declares, in the order of its keys. *)
Definition declared_writes (mapping : JSObject Value) : list Event :=
  map (fun key => Write key (newValue mapping key)) (Object_keys mapping).

(** The keys of a mapping that the store does not classify read-only. *)
Definition writable_keys (mapping : JSObject Value) (s : Store) : list string :=
  List.filter (fun key => negb (isReadonly (prop_get s key)))
    (Object_keys mapping).

(** The operations the gate hands to the handler. *)
Definition boundEvents (options : DefineStoreOptions Store)
    (pluginOptions : option PluginOptions) : LifecycleEvents Store :=
  {| reset := resetState options pluginOptions;
     reconfigure := reconfigureState options pluginOptions;
     refresh' := refreshState options pluginOptions |}.

End Declared.

(** A store whose [load] action throws. *)
Definition brokenStore : MapStore := {|
  ms_id := "broken";
  ms_state := {[ "hasStoreLifecycleManagerListener" := VBool false ]};
  ms_props := {[ "count" := VNum 7;
                 "load" := VFunction "load"; "purge" := VFunction "purge" ]};
  ms_actions := {[ "load" := AThrows "network down";
                   "purge" := ASetProp "purged" ]}
|}.

Definition brokenWorld : World MapStore :=
  {| w_store := brokenStore; w_trace := [] |}.

Definition server : Environment :=
  {| window_defined := false; document_defined := false |}.

Definition ssrPlugin : option PluginOptions :=
  Some {| disableAutoRegister := None; enableDebugLogs := None;
          enableSSR := Some true |}.

Definition failingHandler : LifecycleEvents MapStore -> M MapStore unit :=
  fun _ w => (Throw "handler failed", w).

(** * Properties *)

Local Open Scope list_scope.

Section Reasoning.

Context {Store : Type} `{!Substrate Store}.

Implicit Types (w : World Store) (s : Store) (p : option PluginOptions).

Lemma world_eta w : {| w_store := w_store w; w_trace := w_trace w ++ [] |} = w.
Proof. destruct w; simpl; now rewrite app_nil_r. Qed.

Lemma effects_app t1 t2 : effects (t1 ++ t2) = effects t1 ++ effects t2.
Proof. unfold effects. apply List.filter_app. Qed.

Lemma run_as_ret {A} p (a : A) w : run_as p (ret a) w (Ret a, w_store w, []).
Proof.
  exists []. simpl. unfold ret. rewrite world_eta. repeat split.
Qed.

Lemma run_as_bind {A B} p (m : M Store A) (k : A -> M Store B) w a s1 e1 o s2 e2 :
  run_as p m w (Ret a, s1, e1) ->
  (forall t, run_as p (k a) {| w_store := s1; w_trace := t |} (o, s2, e2)) ->
  run_as p (bind m k) w (o, s2, e1 ++ e2).
Proof.
  intros (l1 & Hm & He1 & Hq1) Hk. simpl in *.
  destruct (Hk (w_trace w ++ l1)) as (l2 & Hk2 & He2 & Hq2). simpl in *.
  exists (l1 ++ l2). simpl. unfold bind. rewrite Hm, Hk2.
  rewrite app_assoc. split; [reflexivity|]. split.
  - rewrite effects_app. congruence.
  - intros Hoff. rewrite forallb_app, (Hq1 Hoff), (Hq2 Hoff). reflexivity.
Qed.

(** The first computation has no effect beyond diagnostics. *)
Lemma run_as_bind_nil {A B} p (m : M Store A) (k : A -> M Store B) w a s1 r :
  run_as p m w (Ret a, s1, []) ->
  (forall t, run_as p (k a) {| w_store := s1; w_trace := t |} r) ->
  run_as p (bind m k) w r.
Proof.
  destruct r as [[o s2] e2]. intros Hm Hk.
  apply (run_as_bind p m k w a s1 [] o s2 e2 Hm Hk).
Qed.

Lemma run_as_bind_throw {A B} p (m : M Store A) (k : A -> M Store B) w e s1 e1 :
  run_as p m w (Throw e, s1, e1) ->
  run_as p (bind m k) w (Throw e, s1, e1).
Proof.
  intros (l1 & Hm & He1 & Hq1). simpl in *.
  exists l1. simpl. unfold bind. rewrite Hm. auto.
Qed.

Lemma run_as_eq {A} p (m : M Store A) w r r' :
  run_as p m w r -> r = r' -> run_as p m w r'.
Proof. now intros H <-. Qed.


(** A debug line or a warning, emitted under the [enableDebugLogs] guard. *)
Lemma run_as_ifDebug p (m : M Store unit) w :
  (forall w', exists lvl line d,
      m w' = (Ret tt, {| w_store := w_store w';
                         w_trace := w_trace w' ++ [Console lvl line d] |})) ->
  run_as p (ifDebug p m) w (Ret tt, w_store w, []).
Proof.
  intros Hm. unfold ifDebug.
  destruct (plugin_flag enableDebugLogs p) eqn:Hp.
  - destruct (Hm w) as (lvl & line & d & Hw).
    exists [Console lvl line d]. simpl. rewrite Hw. repeat split.
    intros Hoff. unfold quiet_when_off in *. congruence.
  - exists []. simpl. unfold ret. rewrite world_eta. repeat split.
Qed.

Lemma log_debug msg d w' :
  exists lvl line d',
    bind read_id (fun sid => debugLog sid msg d) w'
    = (Ret tt, {| w_store := w_store w';
                  w_trace := w_trace w' ++ [Console lvl line d'] |}).
Proof. repeat eexists. Qed.

Lemma log_warn key w' :
  exists lvl line d',
    bind read_id (fun sid => devWarnNonWritable sid key) w'
    = (Ret tt, {| w_store := w_store w';
                  w_trace := w_trace w' ++ [Console lvl line d'] |}).
Proof. repeat eexists. Qed.

(** Apply a run lemma up to conversion of the summary. *)
Ltac run_with L :=
  eapply run_as_eq; [apply L | cbn [w_store]; try reflexivity].
Ltac run_debug :=
  eapply run_as_eq;
  [apply run_as_ifDebug; intros; first [apply log_debug | apply log_warn]
  | cbn [w_store]; try reflexivity].

Lemma run_as_resolve {T} p (c : ConfigSource Store T) w :
  run_as p (resolveConfig c) w (resolved c (w_store w), w_store w, []).
Proof.
  exists []. simpl. unfold resolveConfig. rewrite world_eta. repeat split.
Qed.

Lemma run_as_read_prop p key w :
  run_as p (read_prop key) w (Ret (prop_get (w_store w) key), w_store w, []).
Proof.
  exists []. simpl. unfold read_prop. rewrite world_eta. repeat split.
Qed.

(** One key of the applicator. *)
Lemma applyKey_run p updated failed mapping key w :
  run_as p (applyKey p updated failed mapping key) w
    (Ret tt, keys_store mapping [key] (w_store w),
     keys_writes mapping [key] (w_store w)).
Proof.
  unfold applyKey. cbn [keys_store keys_writes].
  eapply run_as_bind_nil; [apply run_as_read_prop|].
  intros t. cbn [w_store].
  destruct (isReadonly (prop_get (w_store w) key)) eqn:Hro.
  - run_debug.
  - unfold run_as, bind, try_catch, read_prop, write_prop, ifDebug, read_id,
      debugLog, devError, emit, ret, quiet_when_off, newValue. simpl.
    destruct (prop_set key _ (w_store w)) as [[[]|e] s'] eqn:Hset; simpl.
    + destruct (plugin_flag enableDebugLogs p) eqn:Hp; simpl.
      * eexists. rewrite <- app_assoc. split; [reflexivity|].
        split; [reflexivity|]. intros; discriminate.
      * eexists. split; [reflexivity|]. split; [reflexivity|]. reflexivity.
    + eexists. rewrite <- app_assoc. split; [reflexivity|].
      split; [reflexivity|]. reflexivity.
Qed.

Lemma forEach_applyKey_run p updated failed mapping keys : forall w,
  run_as p (forEach (applyKey p updated failed mapping) keys) w
    (Ret tt, keys_store mapping keys (w_store w),
     keys_writes mapping keys (w_store w)).
Proof.
  induction keys as [|key rest IH]; intros w.
  - apply run_as_ret.
  - cbn [forEach].
    eapply run_as_eq.
    + eapply run_as_bind; [apply applyKey_run|].
      intros t. run_with IH.
    + simpl. destruct (isReadonly (prop_get (w_store w) key)); reflexivity.
Qed.

Lemma applicator_run p initiating skipped completed updated failed slot w :
  run_as p (applicator p initiating skipped completed updated failed slot) w
    (applicator_summary slot (w_store w)).
Proof.
  unfold applicator, applicator_summary.
  eapply run_as_bind_nil; [run_debug|].
  intros t.
  destruct slot as [source|]; [|run_debug].
  destruct (resolved source (w_store w)) as [[mapping|]|e] eqn:Hres.
  - eapply run_as_bind_nil.
    { run_with @run_as_resolve. cbn [w_store]. now rewrite Hres. }
    intros t1. eapply run_as_eq.
    + eapply run_as_bind; [apply forEach_applyKey_run|].
      intros t2. run_debug.
    + cbn [w_store]. now rewrite app_nil_r.
  - eapply run_as_bind_nil.
    { run_with @run_as_resolve. cbn [w_store]. now rewrite Hres. }
    intros t1. eapply run_as_bind_nil; [run_with @run_as_ret|].
    intros t2. run_debug.
  - apply run_as_bind_throw.
    run_with @run_as_resolve. cbn [w_store]. now rewrite Hres.
Qed.

Lemma resetState_applicator options p :
  resetState options p
  = applicator p "Initiating reset state operation"
      "Reset state operation skipped: No clean options defined"
      "Reset state operation completed"
      (fun key => "Reset state: Updated '" ++ key ++ "'")%string
      (fun key => "Failed to reset state for key '" ++ key ++ "'")%string
      (lifecycleOptions options ≫= clean).
Proof. reflexivity. Qed.

Lemma reconfigureState_applicator options p :
  reconfigureState options p
  = applicator p "Initiating reconfigure state operation"
      "Reconfigure state operation skipped: No reconfigure options defined"
      "Reconfigure state operation completed"
      (fun key => "Reconfigure state: Updated '" ++ key ++ "'")%string
      (fun key => "Failed to reconfigure state for key '" ++ key ++ "'")%string
      (lifecycleOptions options ≫= reConfigure).
Proof. reflexivity. Qed.

Lemma resetState_run options p w :
  run_as p (resetState options p) w
    (applicator_summary (lifecycleOptions options ≫= clean) (w_store w)).
Proof. rewrite resetState_applicator. apply applicator_run. Qed.

Lemma reconfigureState_run options p w :
  run_as p (reconfigureState options p) w
    (applicator_summary (lifecycleOptions options ≫= reConfigure) (w_store w)).
Proof. rewrite reconfigureState_applicator. apply applicator_run. Qed.

(** The refresh filter and the dispatch loop. *)
Lemma filterM_run p m includeResetOnly entries : forall w,
  run_as p
    (filterM (fun '(key, value) =>
       bind (ifDebug p
               (bind read_id (fun sid =>
                  debugLog sid ("Filtering refresh action: " ++ key)%string
                    (DFilter (shouldInclude m includeResetOnly value) m
                       includeResetOnly
                       (default false (value ≫= resetOnly))))))
            (fun _ => ret (shouldInclude m includeResetOnly value)))
       entries) w
    (Ret (List.filter (fun kv => shouldInclude m includeResetOnly (snd kv)) entries),
     w_store w, []).
Proof.
  induction entries as [|[key value] rest IH]; intros w.
  - apply run_as_ret.
  - cbn [filterM List.filter snd].
    eapply run_as_bind_nil.
    { eapply run_as_bind_nil; [run_debug|].
      intros t. run_with @run_as_ret. }
    intros t. eapply run_as_bind_nil; [run_with IH|].
    intros t1. run_with @run_as_ret.
Qed.

Lemma filteredResult_run p m includeResetOnly refreshResult w :
  run_as p (filteredResult p m includeResetOnly refreshResult) w
    (Ret (kept_entries m includeResetOnly refreshResult), w_store w, []).
Proof.
  unfold filteredResult, kept_entries.
  eapply run_as_bind_nil; [apply filterM_run|].
  intros t. run_with @run_as_ret.
Qed.

Lemma run_as_invoke p key f args w :
  run_as p (invoke key f args) w
    (fst (call f args (w_store w)), snd (call f args (w_store w)),
     [Invoke key args]).
Proof.
  exists [Invoke key args]. unfold invoke.
  destruct (call f args (w_store w)) as [o s']. repeat split.
Qed.

(** One entry of the dispatch loop whose action is present. *)
Lemma dispatch_entry_run p key value w :
  truthy (prop_get (w_store w) key) = true ->
  run_as p
    (bind (read_prop key) (fun action =>
       if truthy action then
         bind (ifDebug p
                 (bind read_id (fun sid =>
                    debugLog sid ("Executing refresh action: " ++ key)%string
                      (DParams (default [] (params <$> value))))))
              (fun _ => invoke key action (default [] (params <$> value)))
       else
         ifDebug p
           (bind read_id (fun sid =>
              debugLog sid
                ("Skipped non-existent refresh action: " ++ key)%string
                NoData)))) w
    (fst (call (prop_get (w_store w) key) (default [] (params <$> value))
            (w_store w)),
     snd (call (prop_get (w_store w) key) (default [] (params <$> value))
            (w_store w)),
     [Invoke key (default [] (params <$> value))]).
Proof.
  intros Htr.
  eapply run_as_bind_nil; [apply run_as_read_prop|].
  intros t. rewrite Htr.
  eapply run_as_bind_nil; [run_debug|].
  intros t1. run_with run_as_invoke.
Qed.

(** One entry of the dispatch loop whose action is absent. *)
Lemma dispatch_missing_run p key value w :
  truthy (prop_get (w_store w) key) = false ->
  run_as p
    (bind (read_prop key) (fun action =>
       if truthy action then
         bind (ifDebug p
                 (bind read_id (fun sid =>
                    debugLog sid ("Executing refresh action: " ++ key)%string
                      (DParams (default [] (params <$> value))))))
              (fun _ => invoke key action (default [] (params <$> value)))
       else
         ifDebug p
           (bind read_id (fun sid =>
              debugLog sid
                ("Skipped non-existent refresh action: " ++ key)%string
                NoData)))) w
    (Ret tt, w_store w, []).
Proof.
  intros Htr.
  eapply run_as_bind_nil; [apply run_as_read_prop|].
  intros t. rewrite Htr. run_debug.
Qed.

Lemma dispatchActions_run p entries : forall w,
  run_as p (dispatchActions p entries) w (dispatch_summary entries (w_store w)).
Proof.
  unfold dispatchActions.
  induction entries as [|[key value] rest IH]; intros w.
  - apply run_as_ret.
  - cbn [forEach dispatch_summary].
    destruct (truthy (prop_get (w_store w) key)) eqn:Htr.
    + pose proof (dispatch_entry_run p key value w Htr) as Hentry.
      destruct (call (prop_get (w_store w) key)
                  (default [] (params <$> value)) (w_store w))
        as [[[]|e] s'] eqn:Hcall; cbn [fst snd] in Hentry.
      * destruct (dispatch_summary rest s') as [[o s''] evs] eqn:Hrest.
        eapply run_as_eq.
        -- eapply run_as_bind; [exact Hentry|].
           intros t. eapply run_as_eq; [apply IH|]. cbn [w_store].
           exact Hrest.
        -- reflexivity.
      * apply run_as_bind_throw. exact Hentry.
    + eapply run_as_bind_nil; [apply (dispatch_missing_run p key value w Htr)|].
      intros t. run_with IH.
Qed.

Lemma refreshState_run options p refreshOptions w :
  run_as p (refreshState options p refreshOptions) w
    (refresh_summary (lifecycleOptions options ≫= refresh) refreshOptions
       (w_store w)).
Proof.
  unfold refreshState, refresh_summary.
  eapply run_as_bind_nil; [run_debug|].
  intros t.
  destruct (lifecycleOptions options ≫= refresh) as [source|];
    [|run_debug].
  destruct (resolved source (w_store w)) as [[refreshResult|]|e] eqn:Hres.
  - eapply run_as_bind_nil.
    { run_with @run_as_resolve. cbn [w_store]. now rewrite Hres. }
    intros t1.
    destruct (dispatch_summary _ (w_store w)) as [[[[]|e] s'] evs] eqn:Hd.
    + eapply run_as_eq.
      * eapply run_as_bind.
        -- eapply run_as_bind_nil; [apply filteredResult_run|].
           intros t2. eapply run_as_eq; [apply dispatchActions_run|].
           cbn [w_store]. exact Hd.
        -- intros t2. run_debug.
      * cbn [w_store]. now rewrite app_nil_r.
    + apply run_as_bind_throw.
      eapply run_as_bind_nil; [apply filteredResult_run|].
      intros t2. eapply run_as_eq; [apply dispatchActions_run|].
      cbn [w_store]. exact Hd.
  - eapply run_as_bind_nil.
    { run_with @run_as_resolve. cbn [w_store]. now rewrite Hres. }
    intros t1. eapply run_as_bind_nil; [run_debug|].
    intros t2. run_debug.
  - apply run_as_bind_throw.
    run_with @run_as_resolve. cbn [w_store]. now rewrite Hres.
Qed.

(** ** The key loop, as a function of the store *)

Lemma effects_In ev t : is_console ev = false -> In ev (effects t) <-> In ev t.
Proof.
  intros Hev. unfold effects. rewrite List.filter_In, Hev. simpl. tauto.
Qed.

Lemma keys_writes_In mapping keys : forall s key v,
  In (Write key v) (keys_writes mapping keys s) ->
  In key keys /\ v = newValue mapping key.
Proof.
  induction keys as [|k rest IH]; intros s key v Hin; [destruct Hin|].
  cbn [keys_writes] in Hin.
  destruct (isReadonly (prop_get s k)).
  - destruct (IH _ _ _ Hin). split; [now right | assumption].
  - destruct Hin as [Heq | Hin].
    + inversion Heq; subst. split; [now left | reflexivity].
    + destruct (IH _ _ _ Hin). split; [now right | assumption].
Qed.

Lemma keys_store_frame mapping keys : forall s key,
  set_frame -> ~ In key keys ->
  prop_get (keys_store mapping keys s) key = prop_get s key.
Proof.
  intros s key Hframe. revert s.
  induction keys as [|k rest IH]; intros s Hnot; [reflexivity|].
  cbn [keys_store].
  assert (key <> k) by (intros ->; apply Hnot; now left).
  assert (~ In key rest) by (intros Hin; apply Hnot; now right).
  rewrite IH by assumption.
  destruct (isReadonly (prop_get s k)); [reflexivity | now apply Hframe].
Qed.

Lemma keys_readonly mapping keys : forall s key,
  set_frame -> isReadonly (prop_get s key) = true ->
  prop_get (keys_store mapping keys s) key = prop_get s key
  /\ forall v, ~ In (Write key v) (keys_writes mapping keys s).
Proof.
  intros s key Hframe. revert s.
  induction keys as [|k rest IH]; intros s Hro; [split; [reflexivity | intros v []]|].
  cbn [keys_store keys_writes].
  destruct (isReadonly (prop_get s k)) eqn:Hk.
  - apply IH, Hro.
  - assert (key <> k) by (intros ->; congruence).
    assert (Hsame : prop_get (snd (prop_set k (newValue mapping k) s)) key
                    = prop_get s key) by now apply Hframe.
    destruct (IH (snd (prop_set k (newValue mapping k) s))) as [Hv Hw];
      [now rewrite Hsame|].
    split; [now rewrite Hv|].
    intros v [Heq | Hin]; [inversion Heq; congruence | now apply (Hw v)].
Qed.

Lemma keys_written mapping keys : forall s key,
  set_frame -> In key keys -> isReadonly (prop_get s key) = false ->
  In (Write key (newValue mapping key)) (keys_writes mapping keys s).
Proof.
  intros s key Hframe. revert s.
  induction keys as [|k rest IH]; intros s Hin Hrw; [destruct Hin|].
  cbn [keys_writes].
  destruct (String.eqb_spec k key) as [->|Hne].
  - rewrite Hrw. now left.
  - destruct Hin as [Heq | Hin]; [congruence|].
    destruct (isReadonly (prop_get s k)); [now apply IH|].
    right. apply IH; [assumption|].
    rewrite Hframe; [assumption | congruence].
Qed.

Lemma keys_store_kept mapping keys : forall s key,
  set_frame -> set_get ->
  (forall s', fst (prop_set key (newValue mapping key) s') = Ret tt) ->
  prop_get s key = newValue mapping key ->
  prop_get (keys_store mapping keys s) key = newValue mapping key.
Proof.
  intros s key Hframe Hget Hok. revert s.
  induction keys as [|k rest IH]; intros s Hval; [assumption|].
  cbn [keys_store]. apply IH.
  destruct (isReadonly (prop_get s k)); [assumption|].
  destruct (String.eqb_spec k key) as [->|Hne].
  - apply Hget, Hok.
  - rewrite Hframe; [assumption | congruence].
Qed.

Lemma keys_completed mapping keys : forall s key,
  set_frame -> set_get ->
  In key keys -> isReadonly (prop_get s key) = false ->
  (forall s', fst (prop_set key (newValue mapping key) s') = Ret tt) ->
  prop_get (keys_store mapping keys s) key = newValue mapping key.
Proof.
  intros s key Hframe Hget. revert s.
  induction keys as [|k rest IH]; intros s Hin Hrw Hok; [destruct Hin|].
  cbn [keys_store].
  destruct (String.eqb_spec k key) as [->|Hne].
  - rewrite Hrw. apply keys_store_kept; auto.
  - destruct Hin as [Heq | Hin]; [congruence|].
    apply IH; [assumption | | assumption].
    destruct (isReadonly (prop_get s k)); [assumption|].
    rewrite Hframe; [assumption | congruence].
Qed.

(** What a run lemma says about the result of a computation. *)
Lemma run_as_result {A} p (m : M Store A) w o s evs :
  run_as p m w (o, s, evs) ->
  fst (m w) = o /\ w_store (snd (m w)) = s
  /\ effects (w_trace (snd (m w))) = effects (w_trace w) ++ evs
  /\ exists logs, w_trace (snd (m w)) = w_trace w ++ logs
       /\ effects logs = evs /\ quiet_when_off p logs.
Proof.
  intros (logs & Hm & He & Hq). cbn [fst snd] in *. rewrite Hm. cbn [fst snd w_store w_trace].
  repeat split; [rewrite effects_app; congruence|].
  exists logs. auto.
Qed.

(** ** Reset and reconfigure *)

Lemma summary_cases (slot : option (ConfigSource Store (JSObject Value))) s :
  (resolved_keys slot s = []
   /\ exists o, applicator_summary slot s = (o, s, []))
  \/ (exists source mapping,
        slot = Some source /\ resolved source s = Ret (Some mapping)
        /\ resolved_keys slot s = Object_keys mapping
        /\ applicator_summary slot s
           = (Ret tt, keys_store mapping (Object_keys mapping) s,
              keys_writes mapping (Object_keys mapping) s)).
Proof.
  unfold resolved_keys, applicator_summary.
  destruct slot as [source|]; [|left; eauto].
  destruct (resolved source s) as [[mapping|]|e] eqn:Hres; [|left; eauto..].
  right. exists source, mapping. auto.
Qed.

Lemma applicator_frame_run (op : M Store unit) p w slot key :
  run_as p op w (applicator_summary slot (w_store w)) ->
  ~ In key (resolved_keys slot (w_store w)) ->
  (exists logs, w_trace (snd (op w)) = w_trace w ++ logs
                /\ forall v, ~ In (Write key v) logs)
  /\ (set_frame -> prop_get (w_store (snd (op w))) key = prop_get (w_store w) key).
Proof.
  intros Hrun Hnot.
  destruct (summary_cases slot (w_store w))
    as [[_ [o Hs]] | (source & mapping & _ & _ & Hkeys & Hs)];
    rewrite Hs in Hrun;
    destruct (run_as_result _ _ _ _ _ _ Hrun)
      as (_ & Hstore & _ & logs & Htrace & Heff & _).
  - split; [|intros _; now rewrite Hstore].
    exists logs. split; [assumption|]. intros v Hin.
    apply (effects_In (Write key v)) in Hin; [|reflexivity].
    now rewrite Heff in Hin.
  - rewrite Hkeys in Hnot. split.
    + exists logs. split; [assumption|]. intros v Hin.
      apply (effects_In (Write key v)) in Hin; [|reflexivity].
      rewrite Heff in Hin. apply keys_writes_In in Hin. tauto.
    + intros Hframe. rewrite Hstore. now apply keys_store_frame.
Qed.

(** C10: a key that does not occur in the resolved property mapping (also
    when the slot is undeclared or the resolver returns nothing) is not
    written by [reset] nor by [reconfigure]: no write to it is attempted,
    and, writes being local to their key, [store[key]] keeps its value. *)
Theorem unmapped_key_unchanged (options : DefineStoreOptions Store) p w key :
  (~ In key (resolved_keys (lifecycleOptions options ≫= clean) (w_store w)) ->
   (exists logs, w_trace (snd (resetState options p w)) = w_trace w ++ logs
                 /\ forall v, ~ In (Write key v) logs)
   /\ (set_frame ->
       prop_get (w_store (snd (resetState options p w))) key
       = prop_get (w_store w) key))
  /\ (~ In key (resolved_keys (lifecycleOptions options ≫= reConfigure) (w_store w)) ->
      (exists logs, w_trace (snd (reconfigureState options p w)) = w_trace w ++ logs
                    /\ forall v, ~ In (Write key v) logs)
      /\ (set_frame ->
          prop_get (w_store (snd (reconfigureState options p w))) key
          = prop_get (w_store w) key)).
Proof.
  split; intros Hnot.
  - exact (applicator_frame_run _ p w _ key (resetState_run options p w) Hnot).
  - exact (applicator_frame_run _ p w _ key (reconfigureState_run options p w) Hnot).
Qed.

Lemma applicator_readonly_run (op : M Store unit) p w slot key :
  run_as p op w (applicator_summary slot (w_store w)) ->
  set_frame ->
  isReadonly (prop_get (w_store w) key) = true ->
  (exists logs, w_trace (snd (op w)) = w_trace w ++ logs
                /\ forall v, ~ In (Write key v) logs)
  /\ prop_get (w_store (snd (op w))) key = prop_get (w_store w) key.
Proof.
  intros Hrun Hframe Hro.
  destruct (summary_cases slot (w_store w))
    as [[_ [o Hs]] | (source & mapping & _ & _ & Hkeys & Hs)];
    rewrite Hs in Hrun;
    destruct (run_as_result _ _ _ _ _ _ Hrun)
      as (_ & Hstore & _ & logs & Htrace & Heff & _).
  - split; [|now rewrite Hstore].
    exists logs. split; [assumption|]. intros v Hin.
    apply (effects_In (Write key v)) in Hin; [|reflexivity].
    now rewrite Heff in Hin.
  - destruct (keys_readonly mapping (Object_keys mapping) _ key Hframe Hro)
      as [Hval Hnow].
    split; [|now rewrite Hstore].
    exists logs. split; [assumption|]. intros v Hin.
    apply (effects_In (Write key v)) in Hin; [|reflexivity].
    rewrite Heff in Hin. now apply (Hnow v).
Qed.

(** C5: a key whose value the substrate classifies read-only is never
    written by [reset] nor by [reconfigure], whatever the resolved mapping
    holds for it: no write to it is attempted and [store[key]] afterwards is
    [store[key]] before. *)
Theorem readonly_key_never_written (options : DefineStoreOptions Store) p w key :
  set_frame ->
  isReadonly (prop_get (w_store w) key) = true ->
  ((exists logs, w_trace (snd (resetState options p w)) = w_trace w ++ logs
                 /\ forall v, ~ In (Write key v) logs)
   /\ prop_get (w_store (snd (resetState options p w))) key
      = prop_get (w_store w) key)
  /\ ((exists logs, w_trace (snd (reconfigureState options p w)) = w_trace w ++ logs
                    /\ forall v, ~ In (Write key v) logs)
      /\ prop_get (w_store (snd (reconfigureState options p w))) key
         = prop_get (w_store w) key).
Proof.
  intros Hframe Hro. split.
  - exact (applicator_readonly_run _ p w _ key (resetState_run options p w)
             Hframe Hro).
  - exact (applicator_readonly_run _ p w _ key
             (reconfigureState_run options p w) Hframe Hro).
Qed.

Lemma applicator_isolation_run (op : M Store unit) p w slot source mapping K :
  run_as p op w (applicator_summary slot (w_store w)) ->
  set_frame -> set_get ->
  slot = Some source ->
  resolved source (w_store w) = Ret (Some mapping) ->
  In K (Object_keys mapping) ->
  isReadonly (prop_get (w_store w) K) = false ->
  fst (op w) = Ret tt
  /\ (exists logs, w_trace (snd (op w)) = w_trace w ++ logs
                   /\ In (Write K (newValue mapping K)) logs)
  /\ ((forall s, fst (prop_set K (newValue mapping K) s) = Ret tt) ->
      prop_get (w_store (snd (op w))) K = newValue mapping K).
Proof.
  intros Hrun Hframe Hget -> Hres HK Hrw.
  unfold applicator_summary in Hrun. rewrite Hres in Hrun.
  destruct (run_as_result _ _ _ _ _ _ Hrun)
    as (Hout & Hstore & _ & logs & Htrace & Heff & _).
  split; [assumption|]. split.
  - exists logs. split; [assumption|].
    apply (effects_In (Write K (newValue mapping K))); [reflexivity|].
    rewrite Heff. now apply keys_written.
  - intros Hok. rewrite Hstore. now apply keys_completed.
Qed.

(** C3, as the code has it: when the write of key [K] raises during [reset]
    or [reconfigure], the operation still returns normally, and for every
    other key [K'] of the mapping that is not classified read-only the write
    of its new value is attempted, and completed ([store[K']] holds the new
    value afterwards) unless the write of [K'] raises itself. *)
Theorem write_failure_isolated (options : DefineStoreOptions Store) p w
    source mapping K e :
  set_frame -> set_get ->
  resolved source (w_store w) = Ret (Some mapping) ->
  In K (Object_keys mapping) ->
  isReadonly (prop_get (w_store w) K) = false ->
  (forall s, fst (prop_set K (newValue mapping K) s) = Throw e) ->
  (lifecycleOptions options ≫= clean = Some source ->
   fst (resetState options p w) = Ret tt
   /\ forall K', K' <> K -> In K' (Object_keys mapping) ->
      isReadonly (prop_get (w_store w) K') = false ->
      (exists logs, w_trace (snd (resetState options p w)) = w_trace w ++ logs
                    /\ In (Write K (newValue mapping K)) logs
                    /\ In (Write K' (newValue mapping K')) logs)
      /\ ((forall s, fst (prop_set K' (newValue mapping K') s) = Ret tt) ->
          prop_get (w_store (snd (resetState options p w))) K'
          = newValue mapping K'))
  /\ (lifecycleOptions options ≫= reConfigure = Some source ->
      fst (reconfigureState options p w) = Ret tt
      /\ forall K', K' <> K -> In K' (Object_keys mapping) ->
         isReadonly (prop_get (w_store w) K') = false ->
         (exists logs,
             w_trace (snd (reconfigureState options p w)) = w_trace w ++ logs
             /\ In (Write K (newValue mapping K)) logs
             /\ In (Write K' (newValue mapping K')) logs)
         /\ ((forall s, fst (prop_set K' (newValue mapping K') s) = Ret tt) ->
             prop_get (w_store (snd (reconfigureState options p w))) K'
             = newValue mapping K')).
Proof.
  intros Hframe Hget Hres HK HKrw HKfails.
  split; intros Hslot.
  - pose proof (resetState_run options p w) as Hrun.
    destruct (applicator_isolation_run _ p w _ source mapping K Hrun
                Hframe Hget Hslot Hres HK HKrw)
      as (Hout & (logsK & HtK & HinK) & _).
    split; [assumption|]. intros K' Hne HK' HK'rw.
    destruct (applicator_isolation_run _ p w _ source mapping K' Hrun
                Hframe Hget Hslot Hres HK' HK'rw)
      as (_ & (logs & Ht & Hin) & Hdone).
    split; [|assumption].
    exists logs. split; [assumption|]. split; [|assumption].
    rewrite Ht in HtK. apply app_inv_head in HtK. now subst.
  - pose proof (reconfigureState_run options p w) as Hrun.
    destruct (applicator_isolation_run _ p w _ source mapping K Hrun
                Hframe Hget Hslot Hres HK HKrw)
      as (Hout & (logsK & HtK & HinK) & _).
    split; [assumption|]. intros K' Hne HK' HK'rw.
    destruct (applicator_isolation_run _ p w _ source mapping K' Hrun
                Hframe Hget Hslot Hres HK' HK'rw)
      as (_ & (logs & Ht & Hin) & Hdone).
    split; [|assumption].
    exists logs. split; [assumption|]. split; [|assumption].
    rewrite Ht in HtK. apply app_inv_head in HtK. now subst.
Qed.

Lemma resolver_throw_run {A} (op : M Store A) p w e :
  run_as p op w (Throw e, w_store w, []) ->
  fst (op w) = Throw e
  /\ w_store (snd (op w)) = w_store w
  /\ effects (w_trace (snd (op w))) = effects (w_trace w).
Proof.
  intros Hrun.
  destruct (run_as_result _ _ _ _ _ _ Hrun) as (Hout & Hstore & Heff & _).
  rewrite app_nil_r in Heff. auto.
Qed.

Lemma applicator_summary_throw slot
    (source : ConfigSource Store (JSObject Value)) s e :
  slot = Some source -> resolved source s = Throw e ->
  applicator_summary slot s = (Throw e, s, []).
Proof. intros -> Hres. unfold applicator_summary. now rewrite Hres. Qed.

Lemma refresh_summary_throw slot (source : ConfigSource Store RefreshOptions)
    refreshOptions s e :
  slot = Some source -> resolved source s = Throw e ->
  refresh_summary slot refreshOptions s = (Throw e, s, []).
Proof. intros -> Hres. unfold refresh_summary. now rewrite Hres. Qed.

(** C4: when the resolver function of a slot throws, the error is not
    caught: [reset], [reconfigure] and [refresh] end with that error, the
    store is the store before the call, and the pass added no effect to the
    trace: no property was written and no action invoked. *)
Theorem resolver_error_propagates (options : DefineStoreOptions Store) p w e :
  (forall source,
      lifecycleOptions options ≫= clean = Some source ->
      resolved source (w_store w) = Throw e ->
      fst (resetState options p w) = Throw e
      /\ w_store (snd (resetState options p w)) = w_store w
      /\ effects (w_trace (snd (resetState options p w))) = effects (w_trace w))
  /\ (forall source,
         lifecycleOptions options ≫= reConfigure = Some source ->
         resolved source (w_store w) = Throw e ->
         fst (reconfigureState options p w) = Throw e
         /\ w_store (snd (reconfigureState options p w)) = w_store w
         /\ effects (w_trace (snd (reconfigureState options p w)))
            = effects (w_trace w))
  /\ (forall source refreshOptions,
         lifecycleOptions options ≫= refresh = Some source ->
         resolved source (w_store w) = Throw e ->
         fst (refreshState options p refreshOptions w) = Throw e
         /\ w_store (snd (refreshState options p refreshOptions w)) = w_store w
         /\ effects (w_trace (snd (refreshState options p refreshOptions w)))
            = effects (w_trace w)).
Proof.
  split; [|split].
  - intros source Hslot Hres.
    pose proof (resetState_run options p w) as Hrun.
    rewrite (applicator_summary_throw _ source _ e Hslot Hres) in Hrun.
    exact (resolver_throw_run _ p w e Hrun).
  - intros source Hslot Hres.
    pose proof (reconfigureState_run options p w) as Hrun.
    rewrite (applicator_summary_throw _ source _ e Hslot Hres) in Hrun.
    exact (resolver_throw_run _ p w e Hrun).
  - intros source refreshOptions Hslot Hres.
    pose proof (refreshState_run options p refreshOptions w) as Hrun.
    rewrite (refresh_summary_throw _ source refreshOptions _ e Hslot Hres)
      in Hrun.
    exact (resolver_throw_run _ p w e Hrun).
Qed.

(** The three shapes of a configuration source. *)
Lemma resolved_shapes {T} (mapping : T) length
    (body : option Store -> Outcome (option T)) s :
  resolved (Static mapping) s = Ret (Some mapping)
  /\ ((0 < length)%nat -> resolved (Func length body) s = body (Some s))
  /\ resolved (Func 0 body) s = body None.
Proof.
  split; [reflexivity|]. split; [|reflexivity].
  intros Hlen. cbn [resolved].
  destruct (Nat.ltb_spec 0 length) as [_|Hge]; [reflexivity | lia].
Qed.

Lemma applicator_source_irrelevant p initiating skipped completed updated
    failed slot1 slot2 (source1 source2 : ConfigSource Store (JSObject Value)) w :
  slot1 = Some source1 -> slot2 = Some source2 ->
  resolved source1 (w_store w) = resolved source2 (w_store w) ->
  applicator p initiating skipped completed updated failed slot1 w
  = applicator p initiating skipped completed updated failed slot2 w.
Proof.
  intros -> -> Heq.
  unfold applicator, bind, ifDebug, resolveConfig, slotData, read_id,
    debugLog, emit, ret.
  destruct (plugin_flag enableDebugLogs p); cbn [fst snd w_store];
    rewrite Heq; reflexivity.
Qed.

(** C7: two configuration sources for the same slot (a static mapping, a
    function called with the store, a function called without arguments)
    that resolve alike on the current store make [reset], and likewise
    [reconfigure], end in the same outcome, the same store and the same
    trace. *)
Theorem source_shape_irrelevant (options1 options2 : DefineStoreOptions Store)
    p w source1 source2 :
  resolved source1 (w_store w) = resolved source2 (w_store w) ->
  (lifecycleOptions options1 ≫= clean = Some source1 ->
   lifecycleOptions options2 ≫= clean = Some source2 ->
   resetState options1 p w = resetState options2 p w)
  /\ (lifecycleOptions options1 ≫= reConfigure = Some source1 ->
      lifecycleOptions options2 ≫= reConfigure = Some source2 ->
      reconfigureState options1 p w = reconfigureState options2 p w).
Proof.
  intros Heq. split; intros H1 H2.
  - rewrite (resetState_applicator options1), (resetState_applicator options2).
    exact (applicator_source_irrelevant _ _ _ _ _ _ _ _ _ _ w H1 H2 Heq).
  - rewrite (reconfigureState_applicator options1),
      (reconfigureState_applicator options2).
    exact (applicator_source_irrelevant _ _ _ _ _ _ _ _ _ _ w H1 H2 Heq).
Qed.

(** ** Refresh *)

Lemma obj_set_fresh {V} (o : JSObject V) key v :
  ~ In key (Object_keys o) -> obj_set o key v = o ++ [(key, v)].
Proof.
  induction o as [|[k x] rest IH]; intros Hnot; [reflexivity|].
  cbn [obj_set]. destruct (String.eqb_spec k key) as [->|Hne].
  - exfalso. apply Hnot. now left.
  - cbn [app]. rewrite IH; [reflexivity|].
    intros Hin. apply Hnot. now right.
Qed.

Lemma fromEntries_acc {V} (es : list (string * V)) : forall acc,
  List.NoDup (Object_keys (acc ++ es)) ->
  fold_left (fun o kv => obj_set o (fst kv) (snd kv)) es acc = acc ++ es.
Proof.
  induction es as [|[k v] rest IH]; intros acc Hnd; cbn [fold_left fst snd].
  - now rewrite app_nil_r.
  - unfold Object_keys in Hnd. rewrite map_app in Hnd. cbn [map fst] in Hnd.
    rewrite obj_set_fresh.
    + rewrite IH; [now rewrite <- app_assoc|].
      unfold Object_keys. rewrite <- app_assoc, map_app. exact Hnd.
    + apply List.NoDup_remove_2 in Hnd. intros Hin. apply Hnd.
      apply in_or_app. now left.
Qed.

Lemma fromEntries_wf {V} (o : JSObject V) :
  wf_object o -> Object_fromEntries (Object_entries o) = o.
Proof. intros Hwf. unfold Object_fromEntries. now rewrite fromEntries_acc. Qed.

Lemma filter_wf {V} (f : string * V -> bool) (o : JSObject V) :
  wf_object o -> wf_object (List.filter f o).
Proof.
  unfold wf_object, Object_keys.
  induction o as [|[k v] rest IH]; intros Hnd; [apply List.NoDup_nil|].
  inversion Hnd as [|? ? Hnot Hrest]; subst. cbn [List.filter].
  destruct (f (k, v)); [|now apply IH].
  cbn [map fst]. apply List.NoDup_cons; [|now apply IH].
  intros Hin. apply Hnot. apply in_map_iff in Hin.
  destruct Hin as ([k' v'] & Hk & Hin). apply List.filter_In in Hin.
  apply in_map_iff. exists (k', v'). tauto.
Qed.

Lemma kept_entries_filter m includeResetOnly refreshResult :
  wf_object refreshResult ->
  kept_entries m includeResetOnly refreshResult
  = List.filter (fun kv => shouldInclude m includeResetOnly (snd kv))
      refreshResult.
Proof.
  intros Hwf. unfold kept_entries.
  apply (fromEntries_wf (List.filter _ refreshResult)).
  now apply filter_wf.
Qed.

Lemma shouldInclude_table m include value :
  shouldInclude m (default false include) value = true
  <-> refresh_truth_table m include (actionResetOnly value).
Proof.
  unfold shouldInclude, refresh_truth_table, actionResetOnly.
  destruct m, include as [[|]|], (default false (value ≫= resetOnly));
    cbn; intuition congruence.
Qed.

Lemma refresh_summary_resolved slot
    (source : ConfigSource Store RefreshOptions) refreshOptions s refreshResult :
  slot = Some source -> resolved source s = Ret (Some refreshResult) ->
  refresh_summary slot refreshOptions s
  = dispatch_summary
      (Object_entries
         (kept_entries (mode refreshOptions)
            (default false (includeResetOnlyActions refreshOptions))
            refreshResult)) s.
Proof. intros -> Hres. unfold refresh_summary. now rewrite Hres. Qed.

Lemma filteredResult_value p m includeResetOnly refreshResult w :
  fst (filteredResult p m includeResetOnly refreshResult w)
  = Ret (kept_entries m includeResetOnly refreshResult).
Proof.
  pose proof (filteredResult_run p m includeResetOnly refreshResult w) as Hrun.
  now destruct (run_as_result _ _ _ _ _ _ Hrun).
Qed.

(** [refresh] is the dispatch of the filtered entries. *)
Lemma refreshState_dispatch (options : DefineStoreOptions Store) p
    refreshOptions source refreshResult filtered w :
  lifecycleOptions options ≫= refresh = Some source ->
  resolved source (w_store w) = Ret (Some refreshResult) ->
  fst (filteredResult p (mode refreshOptions)
         (default false (includeResetOnlyActions refreshOptions))
         refreshResult w) = Ret filtered ->
  fst (refreshState options p refreshOptions w)
  = fst (dispatchActions p (Object_entries filtered) w)
  /\ w_store (snd (refreshState options p refreshOptions w))
     = w_store (snd (dispatchActions p (Object_entries filtered) w))
  /\ effects (w_trace (snd (refreshState options p refreshOptions w)))
     = effects (w_trace (snd (dispatchActions p (Object_entries filtered) w))).
Proof.
  intros Hslot Hres Hfiltered.
  rewrite filteredResult_value in Hfiltered. injection Hfiltered as <-.
  pose proof (refreshState_run options p refreshOptions w) as Hrun.
  pose proof (refresh_summary_resolved _ source refreshOptions (w_store w)
                refreshResult Hslot Hres) as Hs.
  pose proof (run_as_eq p _ w _ _ Hrun Hs) as Hrun'. clear Hrun Hs.
  pose proof (dispatchActions_run p
                (Object_entries
                   (kept_entries (mode refreshOptions)
                      (default false (includeResetOnlyActions refreshOptions))
                      refreshResult)) w) as Hd.
  destruct (dispatch_summary _ (w_store w)) as [[o s] evs].
  destruct (run_as_result _ _ _ _ _ _ Hrun') as (Ho & Hst & Heff & _).
  destruct (run_as_result _ _ _ _ _ _ Hd) as (Ho' & Hst' & Heff' & _).
  repeat split; congruence.
Qed.

(** C1: the refresh filter follows the truth table exactly.  For a resolved
    action mapping and an entry of it, the entry is among the filtered
    entries, which are the ones [refresh] dispatches, iff: in [partial] mode
    its [resetOnly] is false; in [full] mode with [includeResetOnlyActions]
    omitted or false, always; in [full] mode with
    [includeResetOnlyActions = true], its [resetOnly] is true. *)
Theorem refresh_filter_truth_table (options : DefineStoreOptions Store) p
    refreshOptions source refreshResult w key value :
  lifecycleOptions options ≫= refresh = Some source ->
  resolved source (w_store w) = Ret (Some refreshResult) ->
  wf_object refreshResult ->
  In (key, value) (Object_entries refreshResult) ->
  exists filtered,
    fst (filteredResult p (mode refreshOptions)
           (default false (includeResetOnlyActions refreshOptions))
           refreshResult w) = Ret filtered
    /\ (fst (refreshState options p refreshOptions w)
        = fst (dispatchActions p (Object_entries filtered) w)
        /\ w_store (snd (refreshState options p refreshOptions w))
           = w_store (snd (dispatchActions p (Object_entries filtered) w))
        /\ effects (w_trace (snd (refreshState options p refreshOptions w)))
           = effects (w_trace (snd (dispatchActions p (Object_entries filtered) w))))
    /\ (In (key, value) (Object_entries filtered)
        <-> refresh_truth_table (mode refreshOptions)
              (includeResetOnlyActions refreshOptions)
              (actionResetOnly value)).
Proof.
  intros Hslot Hres Hwf Hin.
  exists (kept_entries (mode refreshOptions)
            (default false (includeResetOnlyActions refreshOptions))
            refreshResult).
  split; [apply filteredResult_value|]. split.
  - apply (refreshState_dispatch options p refreshOptions source refreshResult);
      [assumption | assumption | apply filteredResult_value].
  - rewrite kept_entries_filter by assumption.
    unfold Object_entries in *. rewrite List.filter_In. cbn [snd].
    rewrite shouldInclude_table. tauto.
Qed.

Lemma dispatch_summary_app pre post s :
  dispatch_summary (pre ++ post) s
  = match dispatch_summary pre s with
    | (Ret _, s1, evs1) =>
        let '(o, s2, evs2) := dispatch_summary post s1 in (o, s2, evs1 ++ evs2)
    | (Throw e, s1, evs1) => (Throw e, s1, evs1)
    end.
Proof.
  revert s. induction pre as [|[key value] rest IH]; intros s.
  - cbn. now destruct (dispatch_summary post s) as [[o s2] evs2].
  - cbn [app dispatch_summary].
    destruct (truthy (prop_get s key)); [|apply IH].
    destruct (call _ _ s) as [[[]|e] s']; [|reflexivity].
    rewrite IH.
    destruct (dispatch_summary rest s') as [[[[]|e] s1] evs1]; [|reflexivity].
    now destruct (dispatch_summary post s1) as [[o s2] evs2].
Qed.

Lemma dispatch_missing_entry p pre key value post w :
  (forall w1, dispatchActions p pre w = (Ret tt, w1) ->
              truthy (prop_get (w_store w1) key) = false) ->
  fst (dispatchActions p (pre ++ (key, value) :: post) w)
  = fst (dispatchActions p (pre ++ post) w)
  /\ w_store (snd (dispatchActions p (pre ++ (key, value) :: post) w))
     = w_store (snd (dispatchActions p (pre ++ post) w))
  /\ effects (w_trace (snd (dispatchActions p (pre ++ (key, value) :: post) w)))
     = effects (w_trace (snd (dispatchActions p (pre ++ post) w))).
Proof.
  intros Hmissing.
  assert (Hs : dispatch_summary (pre ++ (key, value) :: post) (w_store w)
               = dispatch_summary (pre ++ post) (w_store w)).
  { rewrite !dispatch_summary_app.
    pose proof (dispatchActions_run p pre w) as Hpre.
    destruct (dispatch_summary pre (w_store w)) as [[[[]|e] s1] evs1];
      [|reflexivity].
    destruct Hpre as (logs & Hrun & _). cbn [fst snd] in Hrun.
    specialize (Hmissing _ Hrun). cbn [w_store] in Hmissing.
    cbn [dispatch_summary]. now rewrite Hmissing. }
  pose proof (dispatchActions_run p (pre ++ (key, value) :: post) w) as H1.
  pose proof (dispatchActions_run p (pre ++ post) w) as H2.
  rewrite Hs in H1.
  destruct (dispatch_summary (pre ++ post) (w_store w)) as [[o s] evs].
  destruct (run_as_result _ _ _ _ _ _ H1) as (Ho & Hst & Heff & _).
  destruct (run_as_result _ _ _ _ _ _ H2) as (Ho' & Hst' & Heff' & _).
  repeat split; congruence.
Qed.

(** C8: an entry [(key, value)] that survives the filter and whose key
    names no action of the store (the lookup [store[key]] is falsy when the
    entry is reached, after the entries [pre] before it) changes nothing:
    [refresh] behaves as the dispatch of the other surviving entries alone,
    with the same outcome (the entry throws nothing), the same store and
    the same effects (nothing is invoked for it, and the entries [post]
    after it are dispatched). *)
Theorem missing_action_skipped (options : DefineStoreOptions Store) p
    refreshOptions source refreshResult filtered pre key value post w :
  lifecycleOptions options ≫= refresh = Some source ->
  resolved source (w_store w) = Ret (Some refreshResult) ->
  fst (filteredResult p (mode refreshOptions)
         (default false (includeResetOnlyActions refreshOptions))
         refreshResult w) = Ret filtered ->
  Object_entries filtered = pre ++ (key, value) :: post ->
  (forall w1, dispatchActions p pre w = (Ret tt, w1) ->
              truthy (prop_get (w_store w1) key) = false) ->
  fst (refreshState options p refreshOptions w)
  = fst (dispatchActions p (pre ++ post) w)
  /\ w_store (snd (refreshState options p refreshOptions w))
     = w_store (snd (dispatchActions p (pre ++ post) w))
  /\ effects (w_trace (snd (refreshState options p refreshOptions w)))
     = effects (w_trace (snd (dispatchActions p (pre ++ post) w))).
Proof.
  intros Hslot Hres Hfiltered Hentries Hmissing.
  destruct (refreshState_dispatch options p refreshOptions source refreshResult
              filtered w Hslot Hres Hfiltered) as (Ho & Hs & He).
  destruct (dispatch_missing_entry p pre key value post w Hmissing)
    as (Ho' & Hs' & He').
  rewrite Hentries in Ho, Hs, He.
  repeat split; congruence.
Qed.

(** ** The attachment gate *)

Lemma handler_calls_app t1 t2 :
  handler_calls (t1 ++ t2) = handler_calls t1 + handler_calls t2.
Proof. unfold handler_calls. now rewrite List.filter_app, length_app. Qed.

Lemma gate_condition_policy (disableAuto disableListener_ : option bool) :
  (negb (flag disableAuto) && negb (bool_decide (disableListener_ = Some true)))
  || (flag disableAuto && bool_decide (disableListener_ = Some false))
  = registration_policy disableAuto disableListener_.
Proof. now destruct disableAuto as [[|]|], disableListener_ as [[|]|]. Qed.

Lemma environment_check env p :
  environment_passes env p = true ->
  (negb (window_defined env) || negb (document_defined env))
  && negb (plugin_flag enableSSR p) = false.
Proof.
  unfold environment_passes.
  now destruct (window_defined env), (document_defined env),
    (plugin_flag enableSSR p).
Qed.

(** C6: once the environment check has passed, and for a store without the
    guard property, the gate registers, that is calls the handler (once),
    exactly when the registration policy says so: [disableListener = false]
    registers even under [disableAutoRegister]; [disableListener = true]
    skips even without it; with no per-store override the global switch
    decides.  The handler is any function that does not log handler calls
    of its own. *)
Theorem attachment_gate_policy env (options : DefineStoreOptions Store)
    (handler : LifecycleEvents Store -> M Store unit) p w :
  environment_passes env p = true ->
  state_hasOwnProperty (w_store w) "hasStoreLifecycleManagerListener" = false ->
  (forall events w',
      handler_calls (w_trace (snd (handler events w')))
      = handler_calls (w_trace w')) ->
  handler_calls
    (w_trace (snd (PiniaStoreLifecycleManager env options handler p w)))
  = handler_calls (w_trace w)
    + (if registration_policy (p ≫= disableAutoRegister)
            (lifecycleOptions options ≫= disableListener)
       then 1 else 0).
Proof.
  intros Henv Hflag Hquiet.
  unfold PiniaStoreLifecycleManager.
  rewrite (environment_check env p Henv).
  unfold bind at 1. unfold read_state_hasOwnProperty. rewrite Hflag.
  cbn [negb andb]. unfold plugin_flag at 1 2.
  rewrite gate_condition_policy.
  destruct (registration_policy _ _).
  - unfold bind, update_store, ifDebug, read_id, debugLog, emit, ret.
    destruct (plugin_flag enableDebugLogs p); cbn [fst snd w_store w_trace];
      match goal with
      | |- context [handler ?ev ?w'] =>
          pose proof (Hquiet ev w') as Hq;
          destruct (handler ev w') as [[[]|e] w2]
      end;
      cbn [fst snd w_store w_trace] in *;
      rewrite ?handler_calls_app; rewrite Hq; rewrite ?handler_calls_app;
      cbn; lia.
  - unfold bind, ifDebug, read_id, read_state, debugLog, emit, ret.
    destruct (plugin_flag enableDebugLogs p); cbn [fst snd w_store w_trace];
      rewrite ?handler_calls_app; cbn; lia.
Qed.

(** ** Diagnostics *)

Lemma advisory_of_run (op : option PluginOptions -> M Store unit) r p1 p2 w :
  (forall p, run_as p (op p) w r) -> advisory op p1 p2 w.
Proof.
  intros Hrun. destruct r as [[o s] evs].
  destruct (run_as_result _ _ _ _ _ _ (Hrun p1))
    as (Ho1 & Hs1 & He1 & logs & Ht & _ & Hq).
  destruct (run_as_result _ _ _ _ _ _ (Hrun p2)) as (Ho2 & Hs2 & He2 & _).
  unfold advisory. repeat split; try congruence.
  intros Hoff. exists logs. split; [assumption | now apply Hq].
Qed.

(** C9, as the code has it: diagnostics never change what [reset],
    [reconfigure] and [refresh] do (two runs that differ in the plugin
    options end in the same outcome and store after the same effects), and a
    run without [enableDebugLogs] emits no debug line and no warning; the
    only line it can emit is the failure report of a write that raised. *)
Theorem diagnostics_advisory (options : DefineStoreOptions Store) p1 p2 w
    refreshOptions :
  advisory (resetState options) p1 p2 w
  /\ advisory (reconfigureState options) p1 p2 w
  /\ advisory (fun p => refreshState options p refreshOptions) p1 p2 w.
Proof.
  split; [|split]; eapply advisory_of_run; intros p.
  - apply resetState_run.
  - apply reconfigureState_run.
  - apply refreshState_run.
Qed.

(** * Further properties of the gate and of the three operations *)

(** ** The gate when it does not attach, and when it does *)

Lemma environment_check_negb env p :
  (negb (window_defined env) || negb (document_defined env))
  && negb (plugin_flag enableSSR p)
  = negb (environment_passes env p).
Proof.
  unfold environment_passes.
  now destruct (window_defined env), (document_defined env),
    (plugin_flag enableSSR p).
Qed.

Lemma gate_condition_plugin p (disableListener_ : option bool) :
  (negb (plugin_flag disableAutoRegister p)
   && negb (bool_decide (disableListener_ = Some true)))
  || (plugin_flag disableAutoRegister p
      && bool_decide (disableListener_ = Some false))
  = registration_policy (p ≫= disableAutoRegister) disableListener_.
Proof. apply gate_condition_policy. Qed.

Lemma effects_console t lvl line d :
  effects (t ++ [Console lvl line d]) = effects t.
Proof. rewrite effects_app. cbn. now rewrite app_nil_r. Qed.

(** X1: whenever the gate does not attach (the environment check fails,
    or [$state] already has the guard property, or the registration policy
    says skip) it is inert: it returns normally, leaves the store as it
    was, never calls the handler and adds nothing but a debug line. *)
Theorem gate_skip_inert env (options : DefineStoreOptions Store)
    (handler : LifecycleEvents Store -> M Store unit) p w :
  environment_passes env p = false
  \/ state_hasOwnProperty (w_store w) "hasStoreLifecycleManagerListener" = true
  \/ registration_policy (p ≫= disableAutoRegister)
       (lifecycleOptions options ≫= disableListener) = false ->
  fst (PiniaStoreLifecycleManager env options handler p w) = Ret tt
  /\ w_store (snd (PiniaStoreLifecycleManager env options handler p w))
     = w_store w
  /\ effects (w_trace (snd (PiniaStoreLifecycleManager env options handler p w)))
     = effects (w_trace w).
Proof.
  intros Hskip.
  assert (Hrun : exists logs,
             PiniaStoreLifecycleManager env options handler p w
             = (Ret tt, {| w_store := w_store w; w_trace := w_trace w ++ logs |})
             /\ effects logs = []).
  { unfold PiniaStoreLifecycleManager.
    rewrite environment_check_negb.
    destruct (environment_passes env p); cbn [negb].
    - unfold bind at 1. unfold read_state_hasOwnProperty.
      cbn beta iota zeta. rewrite gate_condition_plugin.
      assert (Hcond : negb (state_hasOwnProperty (w_store w)
                              "hasStoreLifecycleManagerListener")
                      && registration_policy (p ≫= disableAutoRegister)
                           (lifecycleOptions options ≫= disableListener)
                      = false).
      { destruct Hskip as [H | [H | H]]; [discriminate | |]; rewrite H;
          [reflexivity | apply andb_false_r]. }
      rewrite Hcond.
      unfold bind, ifDebug, read_id, read_state, debugLog, emit, ret.
      destruct (plugin_flag enableDebugLogs p); cbn [fst snd w_store w_trace].
      + eexists. split; reflexivity.
      + exists []. now rewrite world_eta.
    - unfold bind, ifDebug, read_id, debugLog, emit, ret.
      destruct (plugin_flag enableDebugLogs p); cbn [fst snd w_store w_trace].
      + eexists. split; reflexivity.
      + exists []. now rewrite world_eta. }
  destruct Hrun as (logs & Hrun & Heff). rewrite Hrun.
  cbn [fst snd w_store w_trace]. rewrite effects_app, Heff, app_nil_r. auto.
Qed.

(** X2: the environment matters to the gate only through the environment
    check: two environments that both pass it, or both fail it, give the
    same run.  In particular with [enableSSR] a server behaves as a
    browser. *)
Theorem gate_environment_check_only env env' (options : DefineStoreOptions Store)
    (handler : LifecycleEvents Store -> M Store unit) p w :
  environment_passes env p = environment_passes env' p ->
  PiniaStoreLifecycleManager env options handler p w
  = PiniaStoreLifecycleManager env' options handler p w.
Proof.
  intros Heq. unfold PiniaStoreLifecycleManager.
  now rewrite !environment_check_negb, Heq.
Qed.

Lemma gate_attach_run env (options : DefineStoreOptions Store)
    (handler : LifecycleEvents Store -> M Store unit) p w :
  environment_passes env p = true ->
  state_hasOwnProperty (w_store w) "hasStoreLifecycleManagerListener" = false ->
  registration_policy (p ≫= disableAutoRegister)
    (lifecycleOptions options ≫= disableListener) = true ->
  exists w1,
    w_store w1
    = state_set_ref "_hasStoreLifecycleManagerListener" (VBool true) (w_store w)
    /\ effects (w_trace w1) = effects (w_trace w) ++ [HandlerCall]
    /\ PiniaStoreLifecycleManager env options handler p w
       = match handler (boundEvents options p) w1 with
         | (Ret _, w2) =>
             ifDebug p
               (bind read_id (fun sid =>
                  debugLog sid
                    "PiniaStoreLifecycleManager listener attached successfully"
                    NoData))
               {| w_store :=
                    prop_set_toRef "_hasStoreLifecycleManagerListener"
                      (w_store w2);
                  w_trace := w_trace w2 |}
         | (Throw e, w2) => (Throw e, w2)
         end.
Proof.
  intros Henv Hflag Hpolicy.
  exists (snd (bind (update_store
                       (state_set_ref "_hasStoreLifecycleManagerListener"
                          (VBool true)))
                 (fun _ =>
                    bind (ifDebug p
                            (bind read_id (fun sid =>
                               debugLog sid
                                 "Attaching PiniaStoreLifecycleManager listener"
                                 NoData)))
                      (fun _ => emit HandlerCall)) w)).
  split; [|split].
  - unfold bind, update_store, ifDebug, read_id, debugLog, emit, ret.
    now destruct (plugin_flag enableDebugLogs p).
  - unfold bind, update_store, ifDebug, read_id, debugLog, emit, ret.
    destruct (plugin_flag enableDebugLogs p); cbn [fst snd w_store w_trace];
      now rewrite effects_app, ?effects_console.
  - unfold PiniaStoreLifecycleManager.
    rewrite (environment_check env p Henv).
    unfold bind at 1. unfold read_state_hasOwnProperty. rewrite Hflag.
    cbn [negb andb]. rewrite gate_condition_plugin, Hpolicy.
    unfold bind, update_store, ifDebug, read_id, debugLog, emit, ret,
      boundEvents.
    destruct (plugin_flag enableDebugLogs p); cbn [fst snd w_store w_trace];
      destruct (handler _ _) as [[[]|e] w2]; reflexivity.
Qed.

(** X3: when the gate attaches, the flag is put on [$state] before the
    handler is called, and the handler receives the three operations bound
    to the store's options.  An exception of the handler leaves the gate
    as it is thrown, before [store._hasStoreLifecycleManagerListener] is
    linked; when the handler returns, the gate links the property and
    returns normally. *)
Theorem gate_attach_sequence env (options : DefineStoreOptions Store)
    (handler : LifecycleEvents Store -> M Store unit) p w :
  environment_passes env p = true ->
  state_hasOwnProperty (w_store w) "hasStoreLifecycleManagerListener" = false ->
  registration_policy (p ≫= disableAutoRegister)
    (lifecycleOptions options ≫= disableListener) = true ->
  exists w1,
    w_store w1
    = state_set_ref "_hasStoreLifecycleManagerListener" (VBool true) (w_store w)
    /\ effects (w_trace w1) = effects (w_trace w) ++ [HandlerCall]
    /\ (forall e w2,
           handler (boundEvents options p) w1 = (Throw e, w2) ->
           PiniaStoreLifecycleManager env options handler p w = (Throw e, w2))
    /\ (forall w2,
           handler (boundEvents options p) w1 = (Ret tt, w2) ->
           fst (PiniaStoreLifecycleManager env options handler p w) = Ret tt
           /\ w_store (snd (PiniaStoreLifecycleManager env options handler p w))
              = prop_set_toRef "_hasStoreLifecycleManagerListener" (w_store w2)
           /\ effects (w_trace (snd (PiniaStoreLifecycleManager env options
                                       handler p w)))
              = effects (w_trace w2)).
Proof.
  intros Henv Hflag Hpolicy.
  destruct (gate_attach_run env options handler p w Henv Hflag Hpolicy)
    as (w1 & Hstore & Heff & Hrun).
  exists w1. split; [assumption|]. split; [assumption|].
  split; [intros e w2 Hh | intros w2 Hh]; rewrite Hrun, Hh.
  - reflexivity.
  - unfold bind, ifDebug, read_id, debugLog, emit, ret.
    destruct (plugin_flag enableDebugLogs p); cbn [fst snd w_store w_trace];
      rewrite ?effects_console; auto.
Qed.

(** ** Undeclared and empty configurations *)

Lemma applicator_summary_nothing
    (slot : option (ConfigSource Store (JSObject Value))) s :
  resolves_to_nothing slot s -> applicator_summary slot s = (Ret tt, s, []).
Proof.
  unfold resolves_to_nothing, applicator_summary.
  destruct slot as [source|]; [|reflexivity].
  now intros [-> | ->].
Qed.

Lemma refresh_summary_nothing (slot : option (ConfigSource Store RefreshOptions))
    refreshOptions s :
  resolves_to_nothing slot s ->
  refresh_summary slot refreshOptions s = (Ret tt, s, []).
Proof.
  unfold resolves_to_nothing, refresh_summary, RefreshOptions.
  destruct slot as [source|]; [|reflexivity].
  now intros [-> | ->].
Qed.

Lemma noop_run (op : M Store unit) p w :
  run_as p op w (Ret tt, w_store w, []) ->
  fst (op w) = Ret tt
  /\ w_store (snd (op w)) = w_store w
  /\ effects (w_trace (snd (op w))) = effects (w_trace w).
Proof.
  intros Hrun.
  destruct (run_as_result _ _ _ _ _ _ Hrun) as (Ho & Hs & He & _).
  rewrite app_nil_r in He. auto.
Qed.

(** X4: an operation whose slot is undeclared, or resolves to nothing or
    to the empty object, is a no-op: it returns normally, the store is the
    store before the call, and nothing is written or invoked; for
    [refresh] whatever the mode. *)
Theorem undeclared_or_empty_is_noop (options : DefineStoreOptions Store) p w
    refreshOptions :
  (resolves_to_nothing (lifecycleOptions options ≫= clean) (w_store w) ->
   fst (resetState options p w) = Ret tt
   /\ w_store (snd (resetState options p w)) = w_store w
   /\ effects (w_trace (snd (resetState options p w))) = effects (w_trace w))
  /\ (resolves_to_nothing (lifecycleOptions options ≫= reConfigure) (w_store w) ->
      fst (reconfigureState options p w) = Ret tt
      /\ w_store (snd (reconfigureState options p w)) = w_store w
      /\ effects (w_trace (snd (reconfigureState options p w)))
         = effects (w_trace w))
  /\ (resolves_to_nothing (lifecycleOptions options ≫= refresh) (w_store w) ->
      fst (refreshState options p refreshOptions w) = Ret tt
      /\ w_store (snd (refreshState options p refreshOptions w)) = w_store w
      /\ effects (w_trace (snd (refreshState options p refreshOptions w)))
         = effects (w_trace w)).
Proof.
  split; [|split]; intros Hnothing; apply (noop_run _ p).
  - eapply run_as_eq; [apply resetState_run|].
    now apply applicator_summary_nothing.
  - eapply run_as_eq; [apply reconfigureState_run|].
    now apply applicator_summary_nothing.
  - eapply run_as_eq; [apply refreshState_run|].
    now apply refresh_summary_nothing.
Qed.

(** ** The writes of reset and reconfigure *)

Lemma keys_writes_sublist mapping keys : forall s,
  keys_writes mapping keys s
  `sublist_of` map (fun key => Write key (newValue mapping key)) keys.
Proof.
  induction keys as [|k rest IH]; intros s; cbn [keys_writes map].
  - constructor.
  - destruct (isReadonly (prop_get s k)).
    + apply sublist_cons, IH.
    + apply sublist_skip, IH.
Qed.

Lemma applicator_summary_mapping slot
    (source : ConfigSource Store (JSObject Value)) s mapping :
  slot = Some source -> resolved source s = Ret (Some mapping) ->
  applicator_summary slot s
  = (Ret tt, keys_store mapping (Object_keys mapping) s,
     keys_writes mapping (Object_keys mapping) s).
Proof. intros -> Hres. unfold applicator_summary. now rewrite Hres. Qed.

Lemma applicator_writes_run (op : M Store unit) p w slot
    (source : ConfigSource Store (JSObject Value)) mapping :
  run_as p op w (applicator_summary slot (w_store w)) ->
  slot = Some source -> resolved source (w_store w) = Ret (Some mapping) ->
  exists logs, w_trace (snd (op w)) = w_trace w ++ logs
               /\ effects logs
                  = keys_writes mapping (Object_keys mapping) (w_store w).
Proof.
  intros Hrun Hslot Hres.
  rewrite (applicator_summary_mapping _ source _ mapping Hslot Hres) in Hrun.
  destruct (run_as_result _ _ _ _ _ _ Hrun) as (_ & _ & _ & logs & Ht & He & _).
  exists logs. auto.
Qed.

(** X5: all that [reset] and [reconfigure] do to the store, besides
    logging, is to attempt writes the mapping declares: the effects are
    assignments [store[key] = mapping[key]], at most one per key of the
    mapping and in the order of [Object.keys]; no action is invoked and the
    handler is not called. *)
Theorem writes_follow_declaration (options : DefineStoreOptions Store) p w
    source mapping :
  resolved source (w_store w) = Ret (Some mapping) ->
  (lifecycleOptions options ≫= clean = Some source ->
   exists logs,
     w_trace (snd (resetState options p w)) = w_trace w ++ logs
     /\ effects logs `sublist_of` declared_writes mapping)
  /\ (lifecycleOptions options ≫= reConfigure = Some source ->
      exists logs,
        w_trace (snd (reconfigureState options p w)) = w_trace w ++ logs
        /\ effects logs `sublist_of` declared_writes mapping).
Proof.
  intros Hres. split; intros Hslot.
  - destruct (applicator_writes_run _ p w _ source mapping
                (resetState_run options p w) Hslot Hres) as (logs & Ht & He).
    exists logs. split; [assumption|]. rewrite He. apply keys_writes_sublist.
  - destruct (applicator_writes_run _ p w _ source mapping
                (reconfigureState_run options p w) Hslot Hres)
      as (logs & Ht & He).
    exists logs. split; [assumption|]. rewrite He. apply keys_writes_sublist.
Qed.

Lemma keys_writes_exact mapping keys :
  set_frame -> List.NoDup keys -> forall s,
  keys_writes mapping keys s
  = map (fun key => Write key (newValue mapping key))
      (List.filter (fun key => negb (isReadonly (prop_get s key))) keys).
Proof.
  intros Hframe.
  induction keys as [|k rest IH]; intros Hnd s; [reflexivity|].
  inversion Hnd as [|? ? Hnot Hrest]; subst.
  cbn [keys_writes List.filter].
  destruct (isReadonly (prop_get s k)); cbn [negb map]; [now apply IH|].
  f_equal. rewrite IH by assumption. f_equal.
  apply List.filter_ext_in. intros key Hin.
  rewrite Hframe; [reflexivity|]. intros ->. contradiction.
Qed.

(** X6: when setters are local to their key, [reset] and [reconfigure]
    attempt exactly one write for each key of the mapping that is not
    classified read-only before the call, in the order of the mapping, and
    no other. *)
Theorem writable_keys_written_once (options : DefineStoreOptions Store) p w
    source mapping :
  set_frame ->
  wf_object mapping ->
  resolved source (w_store w) = Ret (Some mapping) ->
  (lifecycleOptions options ≫= clean = Some source ->
   exists logs,
     w_trace (snd (resetState options p w)) = w_trace w ++ logs
     /\ effects logs
        = map (fun key => Write key (newValue mapping key))
            (writable_keys mapping (w_store w)))
  /\ (lifecycleOptions options ≫= reConfigure = Some source ->
      exists logs,
        w_trace (snd (reconfigureState options p w)) = w_trace w ++ logs
        /\ effects logs
           = map (fun key => Write key (newValue mapping key))
               (writable_keys mapping (w_store w))).
Proof.
  intros Hframe Hwf Hres. split; intros Hslot.
  - destruct (applicator_writes_run _ p w _ source mapping
                (resetState_run options p w) Hslot Hres) as (logs & Ht & He).
    exists logs. split; [assumption|]. rewrite He.
    now apply keys_writes_exact.
  - destruct (applicator_writes_run _ p w _ source mapping
                (reconfigureState_run options p w) Hslot Hres)
      as (logs & Ht & He).
    exists logs. split; [assumption|]. rewrite He.
    now apply keys_writes_exact.
Qed.

Lemma applicator_store_run (op : M Store unit) p w slot
    (source : ConfigSource Store (JSObject Value)) mapping :
  run_as p op w (applicator_summary slot (w_store w)) ->
  slot = Some source -> resolved source (w_store w) = Ret (Some mapping) ->
  w_store (snd (op w)) = keys_store mapping (Object_keys mapping) (w_store w).
Proof.
  intros Hrun Hslot Hres.
  rewrite (applicator_summary_mapping _ source _ mapping Hslot Hres) in Hrun.
  now destruct (run_as_result _ _ _ _ _ _ Hrun) as (_ & Hs & _).
Qed.

Lemma keys_store_twice mapping keys s key :
  set_frame -> set_get ->
  (forall k, In k keys ->
             forall s', fst (prop_set k (newValue mapping k) s') = Ret tt) ->
  prop_get (keys_store mapping keys (keys_store mapping keys s)) key
  = prop_get (keys_store mapping keys s) key.
Proof.
  intros Hframe Hget Hok.
  destruct (in_dec string_dec key keys) as [Hin | Hnot].
  - destruct (isReadonly (prop_get (keys_store mapping keys s) key)) eqn:Hro1.
    + now apply keys_readonly.
    + rewrite (keys_completed mapping keys (keys_store mapping keys s) key)
        by auto.
      destruct (isReadonly (prop_get s key)) eqn:Hro.
      * destruct (keys_readonly mapping keys s key Hframe Hro) as [Hsame _].
        rewrite Hsame in Hro1. congruence.
      * symmetry. apply keys_completed; auto.
  - now rewrite !keys_store_frame.
Qed.

(** X7: [reset] (and likewise [reconfigure]) is idempotent on the values
    of the store: when setters are local to their key, a successful write
    is read back, no write of the mapping raises and the slot resolves to
    the same mapping again, a second call leaves every [store[key]] as the
    first call left it. *)
Theorem reset_twice_same_values (options : DefineStoreOptions Store) p w
    source mapping key :
  set_frame -> set_get ->
  (forall k, In k (Object_keys mapping) ->
             forall s, fst (prop_set k (newValue mapping k) s) = Ret tt) ->
  resolved source (w_store w) = Ret (Some mapping) ->
  (lifecycleOptions options ≫= clean = Some source ->
   resolved source (w_store (snd (resetState options p w)))
   = Ret (Some mapping) ->
   prop_get (w_store (snd (resetState options p
                             (snd (resetState options p w))))) key
   = prop_get (w_store (snd (resetState options p w))) key)
  /\ (lifecycleOptions options ≫= reConfigure = Some source ->
      resolved source (w_store (snd (reconfigureState options p w)))
      = Ret (Some mapping) ->
      prop_get (w_store (snd (reconfigureState options p
                                (snd (reconfigureState options p w))))) key
      = prop_get (w_store (snd (reconfigureState options p w))) key).
Proof.
  intros Hframe Hget Hok Hres. split; intros Hslot Hres'.
  - rewrite (applicator_store_run _ p _ _ source mapping
               (resetState_run options p (snd (resetState options p w)))
               Hslot Hres').
    rewrite (applicator_store_run _ p _ _ source mapping
               (resetState_run options p w) Hslot Hres).
    now apply keys_store_twice.
  - rewrite (applicator_store_run _ p _ _ source mapping
               (reconfigureState_run options p
                  (snd (reconfigureState options p w))) Hslot Hres').
    rewrite (applicator_store_run _ p _ _ source mapping
               (reconfigureState_run options p w) Hslot Hres).
    now apply keys_store_twice.
Qed.

(** ** The invocations of refresh *)

Lemma dispatch_summary_sublist entries : forall s,
  snd (dispatch_summary entries s) `sublist_of` map declared_invocation entries.
Proof.
  induction entries as [|[key value] rest IH]; intros s;
    cbn [dispatch_summary map].
  - constructor.
  - destruct (truthy (prop_get s key)); [|apply sublist_cons, IH].
    destruct (call _ _ s) as [[[]|e] s'].
    + specialize (IH s').
      destruct (dispatch_summary rest s') as [[o s''] evs].
      apply sublist_skip, IH.
    + apply sublist_skip, sublist_nil_l.
Qed.

Lemma refresh_dispatch_run (options : DefineStoreOptions Store) p
    refreshOptions source refreshResult filtered w :
  lifecycleOptions options ≫= refresh = Some source ->
  resolved source (w_store w) = Ret (Some refreshResult) ->
  fst (filteredResult p (mode refreshOptions)
         (default false (includeResetOnlyActions refreshOptions))
         refreshResult w) = Ret filtered ->
  run_as p (refreshState options p refreshOptions) w
    (dispatch_summary (Object_entries filtered) (w_store w)).
Proof.
  intros Hslot Hres Hfiltered.
  rewrite filteredResult_value in Hfiltered. injection Hfiltered as <-.
  exact (run_as_eq p _ w _ _ (refreshState_run options p refreshOptions w)
           (refresh_summary_resolved _ source refreshOptions (w_store w)
              refreshResult Hslot Hres)).
Qed.

(** X8: all that [refresh] does, besides logging, is to invoke actions the
    filtered mapping declares: the effects are calls
    [store[key](...params)] of surviving entries, with the parameters the
    entry declares (none when it declares none), at most one per entry and
    in the order of the mapping; [refresh] itself writes no property and
    does not call the handler. *)
Theorem invocations_follow_declaration (options : DefineStoreOptions Store) p
    refreshOptions source refreshResult filtered w :
  lifecycleOptions options ≫= refresh = Some source ->
  resolved source (w_store w) = Ret (Some refreshResult) ->
  fst (filteredResult p (mode refreshOptions)
         (default false (includeResetOnlyActions refreshOptions))
         refreshResult w) = Ret filtered ->
  exists logs,
    w_trace (snd (refreshState options p refreshOptions w)) = w_trace w ++ logs
    /\ effects logs `sublist_of` map declared_invocation (Object_entries filtered).
Proof.
  intros Hslot Hres Hfiltered.
  pose proof (refresh_dispatch_run options p refreshOptions source
                refreshResult filtered w Hslot Hres Hfiltered) as Hrun.
  pose proof (dispatch_summary_sublist (Object_entries filtered) (w_store w))
    as Hsub.
  destruct (dispatch_summary _ (w_store w)) as [[o s] evs].
  destruct (run_as_result _ _ _ _ _ _ Hrun) as (_ & _ & _ & logs & Ht & He & _).
  exists logs. split; [assumption|]. now rewrite He.
Qed.

(** X9: an action that throws aborts [refresh]: the error is not caught,
    it reaches the caller, the store is as the failed call left it, and the
    entries after it are not dispatched: the last effect is the call that
    threw. *)
Theorem action_error_aborts_refresh (options : DefineStoreOptions Store) p
    refreshOptions source refreshResult filtered pre key value post w w1 e :
  lifecycleOptions options ≫= refresh = Some source ->
  resolved source (w_store w) = Ret (Some refreshResult) ->
  fst (filteredResult p (mode refreshOptions)
         (default false (includeResetOnlyActions refreshOptions))
         refreshResult w) = Ret filtered ->
  Object_entries filtered = pre ++ (key, value) :: post ->
  dispatchActions p pre w = (Ret tt, w1) ->
  truthy (prop_get (w_store w1) key) = true ->
  fst (call (prop_get (w_store w1) key) (default [] (params <$> value))
         (w_store w1)) = Throw e ->
  fst (refreshState options p refreshOptions w) = Throw e
  /\ w_store (snd (refreshState options p refreshOptions w))
     = snd (call (prop_get (w_store w1) key) (default [] (params <$> value))
              (w_store w1))
  /\ effects (w_trace (snd (refreshState options p refreshOptions w)))
     = effects (w_trace w1) ++ [Invoke key (default [] (params <$> value))].
Proof.
  intros Hslot Hres Hfiltered Hentries Hpre Htruthy Hthrow.
  pose proof (refresh_dispatch_run options p refreshOptions source
                refreshResult filtered w Hslot Hres Hfiltered) as Hrun.
  rewrite Hentries, dispatch_summary_app in Hrun.
  pose proof (dispatchActions_run p pre w) as Hprerun.
  destruct (dispatch_summary pre (w_store w)) as [[o1 s1] evs1].
  destruct (run_as_result _ _ _ _ _ _ Hprerun) as (Ho1 & Hs1 & He1 & _).
  rewrite Hpre in Ho1, Hs1, He1. cbn [fst snd] in Ho1, Hs1, He1. subst o1 s1.
  cbn [dispatch_summary] in Hrun. rewrite Htruthy in Hrun.
  destruct (call (prop_get (w_store w1) key) (default [] (params <$> value))
              (w_store w1)) as [[[]|e'] s'] eqn:Hcall;
    cbn [fst snd] in *; [discriminate|].
  injection Hthrow as ->.
  destruct (run_as_result _ _ _ _ _ _ Hrun) as (Ho & Hs & He & _).
  repeat split; [assumption | assumption |].
  rewrite He, He1. now rewrite app_assoc.
Qed.

Lemma filter_all {A} (f : A -> bool) (l : list A) :
  (forall x, f x = true) -> List.filter f l = l.
Proof.
  intros Hall. induction l as [|x rest IH]; [reflexivity|].
  cbn [List.filter]. now rewrite Hall, IH.
Qed.

(** X10: the three ways of calling [refresh] split the mapping: [full]
    without the flag keeps the whole mapping, and each entry is kept by
    exactly one of [partial] and [full] with
    [includeResetOnlyActions = true]. *)
Theorem refresh_modes_partition p (refreshResult : RefreshOptions) w :
  wf_object refreshResult ->
  exists ordinary resetOnlyOnes,
    fst (filteredResult p partial false refreshResult w) = Ret ordinary
    /\ fst (filteredResult p full true refreshResult w) = Ret resetOnlyOnes
    /\ fst (filteredResult p full false refreshResult w) = Ret refreshResult
    /\ forall entry, In entry (Object_entries refreshResult) ->
         (In entry (Object_entries ordinary)
          <-> ~ In entry (Object_entries resetOnlyOnes)).
Proof.
  intros Hwf.
  exists (kept_entries partial false refreshResult),
    (kept_entries full true refreshResult).
  rewrite !filteredResult_value, !kept_entries_filter by assumption.
  repeat split.
  - f_equal. now apply filter_all.
  - intros Hin Hin'. apply List.filter_In in Hin, Hin'.
    destruct Hin as [_ Hp], Hin' as [_ Hf]. unfold shouldInclude in Hp, Hf.
    cbn in Hp, Hf. destruct (default false (snd entry ≫= resetOnly));
      discriminate.
  - intros Hnot. unfold Object_entries in *. apply List.filter_In.
    split; [assumption|].
    destruct (shouldInclude partial false (snd entry)) eqn:Hp; [reflexivity|].
    exfalso. apply Hnot. apply List.filter_In. split; [assumption|].
    unfold shouldInclude in *. cbn in *.
    now destruct (default false (snd entry ≫= resetOnly)).
Qed.

(** ** What is reported on the console *)

Lemma applyKey_failure p updated failed mapping K e w :
  isReadonly (prop_get (w_store w) K) = false ->
  fst (prop_set K (newValue mapping K) (w_store w)) = Throw e ->
  applyKey p updated failed mapping K w
  = (Ret tt,
     {| w_store := snd (prop_set K (newValue mapping K) (w_store w));
        w_trace :=
          w_trace w
          ++ [Write K (newValue mapping K);
              Console LError
                (devErrorLine
                   (store_id (snd (prop_set K (newValue mapping K) (w_store w))))
                   (failed K))
                (DError e)] |}).
Proof.
  intros Hrw Hthrow.
  unfold applyKey, bind, try_catch, read_prop, write_prop, ifDebug, read_id,
    debugLog, devError, devErrorLine, emit, ret, newValue in *.
  cbn [fst snd w_store w_trace]. rewrite Hrw.
  destruct (prop_set K _ (w_store w)) as [[[]|e'] s']; cbn [fst snd] in *;
    [discriminate|].
  injection Hthrow as ->. cbn [fst snd w_store w_trace].
  now rewrite <- app_assoc.
Qed.

Lemma applyKey_warning p updated failed mapping K w :
  plugin_flag enableDebugLogs p = true ->
  isReadonly (prop_get (w_store w) K) = true ->
  applyKey p updated failed mapping K w
  = (Ret tt,
     {| w_store := w_store w;
        w_trace :=
          w_trace w
          ++ [Console LWarn (devWarnLine (store_id (w_store w)) K) NoData] |}).
Proof.
  intros Hdebug Hro.
  unfold applyKey, bind, read_prop, ifDebug, read_id, devWarnNonWritable,
    devWarnLine, emit, ret.
  cbn [fst snd w_store w_trace]. now rewrite Hro, Hdebug.
Qed.

(** A run of the key loop, as an equation. *)
Lemma forEach_applyKey_eq p updated failed mapping keys w :
  exists logs,
    forEach (applyKey p updated failed mapping) keys w
    = (Ret tt, {| w_store := keys_store mapping keys (w_store w);
                  w_trace := w_trace w ++ logs |}).
Proof.
  destruct (forEach_applyKey_run p updated failed mapping keys w)
    as (logs & Heq & _).
  exists logs. exact Heq.
Qed.

(** The key loop emits a line that one of its keys emits when its turn
    comes, provided the turn of that key finds the store as [ready]
    requires, and the keys before it keep [ready]. *)
Lemma forEach_applyKey_emits p updated failed mapping K
    (ready : Store -> Prop) (line : Store -> Event) :
  (forall w, ready (w_store w) ->
             exists before after,
               w_trace (snd (applyKey p updated failed mapping K w))
               = w_trace w ++ before ++ line (w_store w) :: after) ->
  (forall k s, k <> K -> ready s -> ready (keys_store mapping [k] s)) ->
  forall keys w,
    In K keys -> ready (w_store w) ->
    exists logs s',
      w_trace (snd (forEach (applyKey p updated failed mapping) keys w))
      = w_trace w ++ logs
      /\ In (line s') logs.
Proof.
  intros Hemit Hkeep.
  induction keys as [|k rest IH]; intros w Hin Hready; [destruct Hin|].
  cbn [forEach]. unfold bind.
  destruct (applyKey_run p updated failed mapping k w) as (l1 & Hk & _).
  cbn [fst snd] in Hk.
  destruct (String.eqb_spec k K) as [->|Hne].
  - destruct (Hemit w Hready) as (before & after & Htrace).
    rewrite Hk in Htrace |- *. cbn [snd w_trace] in Htrace.
    apply app_inv_head in Htrace. subst l1.
    destruct (forEach_applyKey_eq p updated failed mapping rest
                {| w_store := keys_store mapping [K] (w_store w);
                   w_trace := w_trace w ++ before ++ line (w_store w) :: after |})
      as (l2 & Hrest).
    rewrite Hrest. cbn [snd w_trace].
    exists ((before ++ line (w_store w) :: after) ++ l2), (w_store w).
    split; [now rewrite <- app_assoc|].
    apply in_or_app. left. apply in_or_app. right. now left.
  - destruct Hin as [Heq | Hin]; [congruence|].
    rewrite Hk.
    destruct (IH {| w_store := keys_store mapping [k] (w_store w);
                    w_trace := w_trace w ++ l1 |} Hin)
      as (logs & s' & Htrace & Hline).
    { cbn [w_store]. now apply Hkeep. }
    cbn [w_trace] in Htrace.
    exists (l1 ++ logs), s'. split; [rewrite Htrace; now rewrite <- app_assoc|].
    apply in_or_app. now right.
Qed.

(** The applicator emits what its key loop emits. *)
Lemma applicator_emits p initiating skipped completed updated failed
    (source : ConfigSource Store (JSObject Value)) mapping w (ev : Store -> Event) :
  resolved source (w_store w) = Ret (Some mapping) ->
  (forall w0, w_store w0 = w_store w ->
     exists logs s',
       w_trace (snd (forEach (applyKey p updated failed mapping)
                       (Object_keys mapping) w0))
       = w_trace w0 ++ logs
       /\ In (ev s') logs) ->
  exists logs s',
    w_trace (snd (applicator p initiating skipped completed updated failed
                    (Some source) w))
    = w_trace w ++ logs
    /\ In (ev s') logs.
Proof.
  intros Hres Hloop. unfold applicator. unfold bind at 1.
  assert (H0 : run_as p
                 (ifDebug p (bind read_id (fun sid =>
                    debugLog sid initiating (slotData (Some source)))))
                 w (Ret tt, w_store w, [])) by run_debug.
  destruct H0 as (l0 & H0 & _). cbn [fst snd] in H0. rewrite H0.
  unfold bind at 1. unfold resolveConfig. cbn [w_store]. rewrite Hres.
  unfold bind at 1.
  destruct (Hloop {| w_store := w_store w; w_trace := w_trace w ++ l0 |} eq_refl)
    as (logs & s' & Htrace & Hin).
  destruct (forEach_applyKey_eq p updated failed mapping (Object_keys mapping)
              {| w_store := w_store w; w_trace := w_trace w ++ l0 |})
    as (l1 & Hloop1).
  rewrite Hloop1 in Htrace |- *. cbn [snd w_trace] in Htrace.
  apply app_inv_head in Htrace. subst l1.
  cbn beta iota. cbn [fst snd w_store w_trace].
  match goal with
  | |- context [ifDebug p ?m ?w2] =>
      assert (H3 : run_as p (ifDebug p m) w2 (Ret tt, w_store w2, []))
        by run_debug
  end.
  destruct H3 as (l3 & H3 & _). cbn [fst snd w_store w_trace] in H3.
  rewrite H3. cbn [snd w_trace].
  exists (l0 ++ logs ++ l3), s'. split; [now rewrite <- !app_assoc|].
  apply in_or_app. right. apply in_or_app. now left.
Qed.

Lemma failure_reported_run p initiating skipped completed updated failed
    slot (source : ConfigSource Store (JSObject Value)) mapping K e w :
  slot = Some source ->
  set_frame ->
  resolved source (w_store w) = Ret (Some mapping) ->
  In K (Object_keys mapping) ->
  isReadonly (prop_get (w_store w) K) = false ->
  (forall s, fst (prop_set K (newValue mapping K) s) = Throw e) ->
  exists logs s',
    w_trace (snd (applicator p initiating skipped completed updated failed
                    slot w))
    = w_trace w ++ logs
    /\ In (Console LError (devErrorLine (store_id s') (failed K)) (DError e))
         logs.
Proof.
  intros -> Hframe Hres HK Hrw Hthrow.
  apply (applicator_emits p initiating skipped completed updated failed source
           mapping w
           (fun s' => Console LError (devErrorLine (store_id s') (failed K))
                        (DError e)) Hres).
  intros w0 Hw0.
  destruct (forEach_applyKey_emits p updated failed mapping K
              (fun s => isReadonly (prop_get s K) = false)
              (fun s => Console LError
                          (devErrorLine
                             (store_id (snd (prop_set K (newValue mapping K) s)))
                             (failed K)) (DError e)))
    with (keys := Object_keys mapping) (w := w0)
    as (logs & s' & Htrace & Hin).
  - intros w1 Hready.
    rewrite (applyKey_failure p updated failed mapping K e w1 Hready
               (Hthrow _)).
    cbn [snd w_trace]. exists [Write K (newValue mapping K)], [].
    reflexivity.
  - intros k s Hne Hready. cbn [keys_store].
    destruct (isReadonly (prop_get s k)); [assumption|].
    now rewrite Hframe.
  - assumption.
  - now rewrite Hw0.
  - exists logs, (snd (prop_set K (newValue mapping K) s')). auto.
Qed.

(** X11: a write that raises is never lost: whether or not debug logs are
    enabled, [reset] and [reconfigure] report it with [console.error],
    naming the store, the key and the error, for every key of the mapping
    that is not classified read-only and whose setter throws (setters being
    local to their key). *)
Theorem failed_write_reported (options : DefineStoreOptions Store) p w
    source mapping K e :
  set_frame ->
  resolved source (w_store w) = Ret (Some mapping) ->
  In K (Object_keys mapping) ->
  isReadonly (prop_get (w_store w) K) = false ->
  (forall s, fst (prop_set K (newValue mapping K) s) = Throw e) ->
  (lifecycleOptions options ≫= clean = Some source ->
   exists logs s',
     w_trace (snd (resetState options p w)) = w_trace w ++ logs
     /\ In (Console LError
              (devErrorLine (store_id s')
                 ("Failed to reset state for key '" ++ K ++ "'")%string)
              (DError e)) logs)
  /\ (lifecycleOptions options ≫= reConfigure = Some source ->
      exists logs s',
        w_trace (snd (reconfigureState options p w)) = w_trace w ++ logs
        /\ In (Console LError
                 (devErrorLine (store_id s')
                    ("Failed to reconfigure state for key '" ++ K ++ "'")%string)
                 (DError e)) logs).
Proof.
  intros Hframe Hres HK Hrw Hthrow. split; intros Hslot.
  - rewrite resetState_applicator.
    apply (failure_reported_run p _ _ _ _
             (fun key => "Failed to reset state for key '" ++ key ++ "'")%string
             _ source mapping K e w); assumption.
  - rewrite reconfigureState_applicator.
    apply (failure_reported_run p _ _ _ _
             (fun key => "Failed to reconfigure state for key '" ++ key ++ "'")%string
             _ source mapping K e w); assumption.
Qed.

Lemma warning_emitted_run p initiating skipped completed updated failed
    slot (source : ConfigSource Store (JSObject Value)) mapping K w :
  slot = Some source ->
  plugin_flag enableDebugLogs p = true ->
  set_frame ->
  resolved source (w_store w) = Ret (Some mapping) ->
  In K (Object_keys mapping) ->
  isReadonly (prop_get (w_store w) K) = true ->
  exists logs s',
    w_trace (snd (applicator p initiating skipped completed updated failed
                    slot w))
    = w_trace w ++ logs
    /\ In (Console LWarn (devWarnLine (store_id s') K) NoData) logs.
Proof.
  intros -> Hdebug Hframe Hres HK Hro.
  apply (applicator_emits p initiating skipped completed updated failed source
           mapping w
           (fun s' => Console LWarn (devWarnLine (store_id s') K) NoData) Hres).
  intros w0 Hw0.
  apply (forEach_applyKey_emits p updated failed mapping K
           (fun s => isReadonly (prop_get s K) = true)
           (fun s => Console LWarn (devWarnLine (store_id s) K) NoData)).
  - intros w1 Hready.
    rewrite (applyKey_warning p updated failed mapping K w1 Hdebug Hready).
    cbn [snd w_trace]. exists [], []. reflexivity.
  - intros k s Hne Hready. cbn [keys_store].
    destruct (isReadonly (prop_get s k)); [assumption|].
    now rewrite Hframe.
  - assumption.
  - now rewrite Hw0.
Qed.

(** X12: with debug logs enabled, every read-only key of the mapping that
    [reset] or [reconfigure] skips is announced with [console.warn], naming
    the store and the key (setters being local to their key). *)
Theorem readonly_skip_warned (options : DefineStoreOptions Store) p w
    source mapping K :
  plugin_flag enableDebugLogs p = true ->
  set_frame ->
  resolved source (w_store w) = Ret (Some mapping) ->
  In K (Object_keys mapping) ->
  isReadonly (prop_get (w_store w) K) = true ->
  (lifecycleOptions options ≫= clean = Some source ->
   exists logs s',
     w_trace (snd (resetState options p w)) = w_trace w ++ logs
     /\ In (Console LWarn (devWarnLine (store_id s') K) NoData) logs)
  /\ (lifecycleOptions options ≫= reConfigure = Some source ->
      exists logs s',
        w_trace (snd (reconfigureState options p w)) = w_trace w ++ logs
        /\ In (Console LWarn (devWarnLine (store_id s') K) NoData) logs).
Proof.
  intros Hdebug Hframe Hres HK Hro. split; intros Hslot.
  - rewrite resetState_applicator.
    apply (warning_emitted_run p _ _ _ _ _ _ source mapping K w); assumption.
  - rewrite reconfigureState_applicator.
    apply (warning_emitted_run p _ _ _ _ _ _ source mapping K w); assumption.
Qed.

End Reasoning.

(** * The concrete substrate: instances of the properties *)

Lemma map_set_frame throwing : @set_frame MapStore (MapSubstrate throwing).
Proof.
  intros key v s key' Hne. cbn. unfold ms_prop_set.
  destruct (bool_decide (key ∈ throwing)); cbn; [reflexivity|].
  now rewrite lookup_insert_ne.
Qed.

Lemma map_set_get throwing : @set_get MapStore (MapSubstrate throwing).
Proof.
  intros key v s. cbn. unfold ms_prop_set.
  destruct (bool_decide (key ∈ throwing)); cbn; [discriminate|].
  intros _. now rewrite lookup_insert_eq.
Qed.

(** C2, on the code: the guard of the gate tests the own property
    [hasStoreLifecycleManagerListener] of [$state] while the flag is created
    under [_hasStoreLifecycleManagerListener], so a second invocation for
    the same store passes the guard and calls the handler again. *)
Theorem second_invocation_attaches_again :
  let attach :=
    @PiniaStoreLifecycleManager MapStore (MapSubstrate []) browser noOptions
      quietHandler None in
  let w1 := snd (attach world0) in
  handler_calls (w_trace w1) = 1
  /\ @state_hasOwnProperty MapStore (MapSubstrate []) (w_store w1)
       "_hasStoreLifecycleManagerListener" = true
  /\ handler_calls (w_trace (snd (attach w1))) = 2.
Proof. vm_compute. repeat split. Qed.

(** C9 as stated fails: with debug logs off, a write that raises is still
    reported on the console. *)
Lemma error_report_without_debug_logs :
  plugin_flag enableDebugLogs None = false
  /\ List.filter is_console
       (w_trace (snd (@resetState MapStore (MapSubstrate ["count"])
                        demoOptions None world0)))
     = [Console LError
          "🔄 [PiniaStoreLifecycleManager] (demo) Failed to reset state for key 'count'"
          (DError "Cannot assign to property count")].
Proof. vm_compute. split; reflexivity. Qed.

(** C3 as stated fails: the write of [count] raises, and the other key
    [frozen] of the mapping, being read-only, is not written: no write to it
    is attempted and it does not hold its new value afterwards. *)
Lemma readonly_key_skipped_after_failure :
  In "count" (Object_keys demoClean)
  /\ In "frozen" (Object_keys demoClean)
  /\ fst (@prop_set MapStore (MapSubstrate ["count"]) "count"
            (newValue demoClean "count") demoStore)
     = Throw "Cannot assign to property count"
  /\ ~ In (Write "frozen" (newValue demoClean "frozen"))
         (w_trace (snd (@resetState MapStore (MapSubstrate ["count"])
                          demoOptions None world0)))
  /\ @prop_get MapStore (MapSubstrate ["count"])
       (w_store (snd (@resetState MapStore (MapSubstrate ["count"])
                        demoOptions None world0))) "frozen"
     <> newValue demoClean "frozen".
Proof.
  vm_compute. repeat split; try tauto; try discriminate.
  intuition discriminate.
Qed.

Lemma refresh_filter_truth_table_witness :
  exists filtered,
    fst (@filteredResult MapStore (MapSubstrate []) None partial false
           demoRefresh world0) = Ret filtered
    /\ ~ In ("purge", purgeEntry) (Object_entries filtered).
Proof.
  destruct (@refresh_filter_truth_table MapStore (MapSubstrate []) demoOptions
              None partialRefresh (Static demoRefresh) demoRefresh world0
              "purge" purgeEntry eq_refl eq_refl)
    as (filtered & Hfiltered & _ & Htable).
  - repeat apply List.NoDup_cons; try apply List.NoDup_nil;
      cbn; intuition discriminate.
  - cbn. tauto.
  - exists filtered. split; [exact Hfiltered|].
    intros Hin. apply Htable in Hin. discriminate Hin.
Defined.

Lemma write_failure_isolated_witness :
  fst (@resetState MapStore (MapSubstrate ["count"]) demoOptions None world0)
  = Ret tt
  /\ @prop_get MapStore (MapSubstrate ["count"])
       (w_store (snd (@resetState MapStore (MapSubstrate ["count"])
                        demoOptions None world0))) "user"
     = VNull.
Proof.
  destruct (@write_failure_isolated MapStore (MapSubstrate ["count"])
              demoOptions None world0 (Static demoClean) demoClean "count"
              "Cannot assign to property count"
              (map_set_frame _) (map_set_get _) eq_refl
              (or_introl eq_refl) eq_refl (fun s => eq_refl))
    as [Hreset _].
  destruct (Hreset eq_refl) as [Hret Hkeys].
  split; [exact Hret|].
  destruct (Hkeys "user" ltac:(discriminate)
              (or_intror (or_introl eq_refl)) eq_refl) as [_ Hdone].
  exact (Hdone (fun s => eq_refl)).
Defined.

Lemma resolver_error_propagates_witness :
  fst (@resetState MapStore (MapSubstrate []) throwingOptions None world0)
  = Throw "boom"
  /\ fst (@reconfigureState MapStore (MapSubstrate []) throwingOptions None
            world0) = Throw "boom"
  /\ fst (@refreshState MapStore (MapSubstrate []) throwingOptions None
            partialRefresh world0) = Throw "boom"
  /\ w_store (snd (@refreshState MapStore (MapSubstrate []) throwingOptions
                     None partialRefresh world0)) = demoStore.
Proof.
  destruct (@resolver_error_propagates MapStore (MapSubstrate [])
              throwingOptions None world0 "boom") as (Hreset & Hreconf & Hrefresh).
  destruct (Hreset _ eq_refl eq_refl) as (H1 & _).
  destruct (Hreconf _ eq_refl eq_refl) as (H2 & _).
  destruct (Hrefresh _ partialRefresh eq_refl eq_refl) as (H3 & H4 & _).
  repeat split; assumption.
Defined.

Lemma readonly_key_never_written_witness :
  @prop_get MapStore (MapSubstrate [])
    (w_store (snd (@resetState MapStore (MapSubstrate []) demoOptions None
                     world0))) "frozen"
  = VObject true 2
  /\ @prop_get MapStore (MapSubstrate [])
       (w_store (snd (@reconfigureState MapStore (MapSubstrate []) demoOptions
                        None world0))) "frozen"
     = VObject true 2.
Proof.
  destruct (@readonly_key_never_written MapStore (MapSubstrate []) demoOptions
              None world0 "frozen" (map_set_frame _) eq_refl)
    as [[_ Hreset] [_ Hreconf]].
  split; [exact Hreset | exact Hreconf].
Defined.

Lemma attachment_gate_policy_witness :
  handler_calls
    (w_trace (snd (@PiniaStoreLifecycleManager MapStore (MapSubstrate [])
                     browser overrideOptions quietHandler manualPlugin world0)))
  = 1.
Proof.
  exact (@attachment_gate_policy MapStore (MapSubstrate []) browser
           overrideOptions quietHandler manualPlugin world0 eq_refl eq_refl
           (fun _ _ => eq_refl)).
Defined.

Lemma source_shape_irrelevant_witness :
  @resetState MapStore (MapSubstrate []) demoOptions None world0
  = @resetState MapStore (MapSubstrate []) functionOptions None world0
  /\ @reconfigureState MapStore (MapSubstrate []) demoOptions None world0
     = @reconfigureState MapStore (MapSubstrate []) functionOptions None world0.
Proof.
  split.
  - exact (proj1 (@source_shape_irrelevant MapStore (MapSubstrate [])
                    demoOptions functionOptions None world0
                    (Static demoClean) (Func 0 (fun _ => Ret (Some demoClean)))
                    eq_refl) eq_refl eq_refl).
  - exact (proj2 (@source_shape_irrelevant MapStore (MapSubstrate [])
                    demoOptions functionOptions None world0
                    (Static demoClean) (Func 1 (fun _ => Ret (Some demoClean)))
                    eq_refl) eq_refl eq_refl).
Defined.

Lemma missing_action_skipped_witness :
  fst (@refreshState MapStore (MapSubstrate []) demoOptions None fullRefresh
         world0) = Ret tt
  /\ effects (w_trace (snd (@refreshState MapStore (MapSubstrate [])
                              demoOptions None fullRefresh world0)))
     = [Invoke "load" []; Invoke "purge" [VStr "x"]].
Proof.
  destruct (@missing_action_skipped MapStore (MapSubstrate []) demoOptions
              None fullRefresh (Static demoRefresh) demoRefresh demoRefresh
              [("load", loadEntry)] "missing" missingEntry
              [("purge", purgeEntry)] world0 eq_refl eq_refl eq_refl eq_refl)
    as (Hout & _ & Heff).
  - intros w1 Hrun.
    assert (Hw1 : w1 = snd (@dispatchActions MapStore (MapSubstrate []) None
                              [("load", loadEntry)] world0))
      by (rewrite Hrun; reflexivity).
    rewrite Hw1. vm_compute. reflexivity.
  - split.
    + etransitivity; [exact Hout|]. vm_compute. reflexivity.
    + etransitivity; [exact Heff|]. vm_compute. reflexivity.
Defined.

Lemma diagnostics_advisory_witness :
  forallb not_gated_line
    (w_trace (snd (@resetState MapStore (MapSubstrate ["count"]) demoOptions
                     None world0))) = true
  /\ effects (w_trace (snd (@resetState MapStore (MapSubstrate ["count"])
                              demoOptions None world0)))
     = effects (w_trace (snd (@resetState MapStore (MapSubstrate ["count"])
                                demoOptions manualPlugin world0))).
Proof.
  destruct (@diagnostics_advisory MapStore (MapSubstrate ["count"]) demoOptions
              None manualPlugin world0 partialRefresh)
    as ((_ & _ & Heff & Hquiet) & _).
  destruct (Hquiet eq_refl) as (logs & Htrace & Hlogs).
  split; [|exact Heff].
  rewrite Htrace. exact Hlogs.
Defined.

Lemma unmapped_key_unchanged_witness :
  @prop_get MapStore (MapSubstrate [])
    (w_store (snd (@resetState MapStore (MapSubstrate []) demoOptions None
                     world0))) "load"
  = VFunction "load"
  /\ @prop_get MapStore (MapSubstrate [])
       (w_store (snd (@reconfigureState MapStore (MapSubstrate []) demoOptions
                        None world0))) "load"
     = VFunction "load".
Proof.
  destruct (@unmapped_key_unchanged MapStore (MapSubstrate []) demoOptions None
              world0 "load") as [Hreset Hreconf].
  assert (Hnot : ~ In "load" (Object_keys demoClean))
    by (cbn; intuition discriminate).
  split.
  - exact (proj2 (Hreset Hnot) (map_set_frame _)).
  - exact (proj2 (Hreconf Hnot) (map_set_frame _)).
Defined.

(** ** Instances of the further properties *)

Lemma gate_skip_inert_witness :
  fst (@PiniaStoreLifecycleManager MapStore (MapSubstrate []) browser
         demoOptions failingHandler None brokenWorld) = Ret tt
  /\ w_store (snd (@PiniaStoreLifecycleManager MapStore (MapSubstrate [])
                     browser demoOptions failingHandler None brokenWorld))
     = brokenStore.
Proof.
  destruct (@gate_skip_inert MapStore (MapSubstrate []) browser demoOptions
              failingHandler None brokenWorld (or_intror (or_introl eq_refl)))
    as (Hout & Hstore & _).
  split; assumption.
Defined.

Lemma gate_environment_check_only_witness :
  @PiniaStoreLifecycleManager MapStore (MapSubstrate []) server demoOptions
    quietHandler ssrPlugin world0
  = @PiniaStoreLifecycleManager MapStore (MapSubstrate []) browser demoOptions
      quietHandler ssrPlugin world0.
Proof.
  exact (@gate_environment_check_only MapStore (MapSubstrate []) server browser
           demoOptions quietHandler ssrPlugin world0 eq_refl).
Defined.

Lemma gate_attach_sequence_witness :
  fst (@PiniaStoreLifecycleManager MapStore (MapSubstrate []) browser
         demoOptions failingHandler None world0) = Throw "handler failed".
Proof.
  destruct (@gate_attach_sequence MapStore (MapSubstrate []) browser
              demoOptions failingHandler None world0 eq_refl eq_refl eq_refl)
    as (w1 & _ & _ & Hthrow & _).
  now rewrite (Hthrow "handler failed" w1 eq_refl).
Defined.

Lemma undeclared_or_empty_is_noop_witness :
  w_store (snd (@resetState MapStore (MapSubstrate []) noOptions None world0))
  = demoStore
  /\ w_store (snd (@reconfigureState MapStore (MapSubstrate []) noOptions None
                     world0)) = demoStore
  /\ w_store (snd (@refreshState MapStore (MapSubstrate []) noOptions None
                     fullRefresh world0)) = demoStore.
Proof.
  destruct (@undeclared_or_empty_is_noop MapStore (MapSubstrate []) noOptions
              None world0 fullRefresh) as (Hreset & Hreconf & Hrefresh).
  destruct (Hreset I) as (_ & H1 & _).
  destruct (Hreconf I) as (_ & H2 & _).
  destruct (Hrefresh I) as (_ & H3 & _).
  repeat split; assumption.
Defined.

Lemma writes_follow_declaration_witness :
  exists logs,
    w_trace (snd (@resetState MapStore (MapSubstrate ["count"]) demoOptions
                    None world0)) = logs
    /\ effects logs `sublist_of` declared_writes demoClean.
Proof.
  destruct (@writes_follow_declaration MapStore (MapSubstrate ["count"])
              demoOptions None world0 (Static demoClean) demoClean eq_refl)
    as [Hreset _].
  exact (Hreset eq_refl).
Defined.

Lemma writable_keys_written_once_witness :
  exists logs,
    w_trace (snd (@resetState MapStore (MapSubstrate []) demoOptions None
                    world0)) = logs
    /\ effects logs = [Write "count" (VNum 0); Write "user" VNull].
Proof.
  destruct (@writable_keys_written_once MapStore (MapSubstrate []) demoOptions
              None world0 (Static demoClean) demoClean (map_set_frame _))
    as [Hreset _].
  - repeat apply List.NoDup_cons; try apply List.NoDup_nil;
      cbn; intuition discriminate.
  - reflexivity.
  - exact (Hreset eq_refl).
Defined.

Lemma reset_twice_same_values_witness :
  @prop_get MapStore (MapSubstrate [])
    (w_store (snd (@resetState MapStore (MapSubstrate []) demoOptions None
                     (snd (@resetState MapStore (MapSubstrate []) demoOptions
                             None world0))))) "user"
  = @prop_get MapStore (MapSubstrate [])
      (w_store (snd (@resetState MapStore (MapSubstrate []) demoOptions None
                       world0))) "user".
Proof.
  exact (proj1 (@reset_twice_same_values MapStore (MapSubstrate [])
                  demoOptions None world0 (Static demoClean) demoClean "user"
                  (map_set_frame _) (map_set_get _)
                  (fun k _ s => eq_refl) eq_refl) eq_refl eq_refl).
Defined.

Lemma invocations_follow_declaration_witness :
  exists logs,
    w_trace (snd (@refreshState MapStore (MapSubstrate []) demoOptions None
                    fullRefresh world0)) = logs
    /\ effects logs
       `sublist_of` [Invoke "load" []; Invoke "missing" [];
                     Invoke "purge" [VStr "x"]].
Proof.
  exact (@invocations_follow_declaration MapStore (MapSubstrate [])
           demoOptions None fullRefresh (Static demoRefresh) demoRefresh
           demoRefresh world0 eq_refl eq_refl eq_refl).
Defined.

Lemma action_error_aborts_refresh_witness :
  fst (@refreshState MapStore (MapSubstrate []) demoOptions None fullRefresh
         brokenWorld) = Throw "network down"
  /\ effects (w_trace (snd (@refreshState MapStore (MapSubstrate [])
                              demoOptions None fullRefresh brokenWorld)))
     = [Invoke "load" []].
Proof.
  destruct (@action_error_aborts_refresh MapStore (MapSubstrate [])
              demoOptions None fullRefresh (Static demoRefresh) demoRefresh
              demoRefresh [] "load" loadEntry
              [("missing", missingEntry); ("purge", purgeEntry)]
              brokenWorld brokenWorld "network down"
              eq_refl eq_refl eq_refl eq_refl eq_refl eq_refl eq_refl)
    as (Hout & _ & Heff).
  split; assumption.
Defined.

Lemma refresh_modes_partition_witness :
  exists ordinary resetOnlyOnes,
    fst (@filteredResult MapStore (MapSubstrate []) None partial false
           demoRefresh world0) = Ret ordinary
    /\ fst (@filteredResult MapStore (MapSubstrate []) None full true
              demoRefresh world0) = Ret resetOnlyOnes
    /\ fst (@filteredResult MapStore (MapSubstrate []) None full false
              demoRefresh world0) = Ret demoRefresh
    /\ forall entry, In entry (Object_entries demoRefresh) ->
         (In entry (Object_entries ordinary)
          <-> ~ In entry (Object_entries resetOnlyOnes)).
Proof.
  apply (@refresh_modes_partition MapStore (MapSubstrate []) None demoRefresh
           world0).
  repeat apply List.NoDup_cons; try apply List.NoDup_nil;
    cbn; intuition discriminate.
Defined.

Lemma failed_write_reported_witness :
  exists logs s',
    w_trace (snd (@resetState MapStore (MapSubstrate ["count"]) demoOptions
                    None world0)) = logs
    /\ In (Console LError
             (devErrorLine (ms_id s') "Failed to reset state for key 'count'")
             (DError "Cannot assign to property count")) logs.
Proof.
  destruct (@failed_write_reported MapStore (MapSubstrate ["count"])
              demoOptions None world0 (Static demoClean) demoClean "count"
              "Cannot assign to property count" (map_set_frame _) eq_refl
              (or_introl eq_refl) eq_refl (fun s => eq_refl))
    as [Hreset _].
  exact (Hreset eq_refl).
Defined.

Lemma readonly_skip_warned_witness :
  exists logs s',
    w_trace (snd (@resetState MapStore (MapSubstrate []) demoOptions
                    manualPlugin world0)) = logs
    /\ In (Console LWarn (devWarnLine (ms_id s') "frozen") NoData) logs.
Proof.
  destruct (@readonly_skip_warned MapStore (MapSubstrate []) demoOptions
              manualPlugin world0 (Static demoClean) demoClean "frozen"
              eq_refl (map_set_frame _) eq_refl
              (or_intror (or_intror (or_introl eq_refl))) eq_refl)
    as [Hreset _].
  exact (Hreset eq_refl).
Defined.
